(** * EpidemicSimulation: the simulation engine of src/EpidemicSimulation.jsx

    A shallow embedding of the engine part of the React component: the agent
    record, [initializeSimulation], [updateSimulationParameters],
    [attemptInfection], [determineOutcome], [updateSimulation] and the
    statistics it publishes.  Drawing and charting are left out.

    Conventions.
    - A JavaScript number is an IEEE-754 binary64 value: Rocq's primitive
      [float], whose [+ - * /], [sqrt] and comparisons round exactly as
      JavaScript's do.  Decimal literals denote the nearest binary64 value in
      both languages.
    - Counters that only ever hold small non-negative integers ([id],
      [infectionsSpread], the population size, the per-status tallies) are
      [nat]; they are converted with [num_of_nat] where the code divides.
    - [null] is [None]; arithmetic on a nullable field goes through
      [toNumber], as JavaScript's ToNumber(null) = +0.
    - Where a statement bounds a rounding error it is about the real value
      [valueOf] of the numbers, and is proved from the specification of the
      binary64 operations in [SpecFloat].
    - [Math.random] reads the next element of a sequence of draws ([Rng]);
      code that draws lives in the state monad [Eff].
    - [Math.sin], [Math.cos], [Math.atan2] are implementation-approximated in
      ECMAScript, so they are fields of a [Host]; so is Number::toString,
      used by [toFixed] only for magnitudes of 1e21 and more. *)

From Stdlib Require Import Reals Lra.
From Stdlib Require Import Floats ZArith List String Ascii Bool Arith Lia.
From Stdlib Require DecimalString.
Import ListNotations.

Close Scope R_scope.
Open Scope nat_scope.

Set Warnings "-inexact-float".

(* ===================================================================== *)
(** ** JavaScript values and numeric helpers *)
(* ===================================================================== *)

Module JS.

Local Open Scope float_scope.
Local Open Scope bool_scope.

(** [a > b] *)
Definition gtb (a b : float) : bool := b <? a.

(** ToBoolean on a number: false for +0, -0 and NaN. *)
Definition truthy (v : float) : bool := (v <? 0) || (0 <? v).

(** [v || d] on numbers. *)
Definition orElse (v d : float) : float := if truthy v then v else d.

(** ToNumber on a nullable number. *)
Definition toNumber (o : option float) : float :=
  match o with Some v => v | None => 0 end.

(** [o !== null] *)
Definition notNull {A : Type} (o : option A) : bool :=
  match o with Some _ => true | None => false end.

(** Math.max and Math.min on two arguments: NaN is contagious and +0 is
    larger than -0. *)
Definition Math_max (a b : float) : float :=
  if is_nan a || is_nan b then nan
  else if a <? b then b
  else if b <? a then a
  else if is_zero a && get_sign a then b else a.

Definition Math_min (a b : float) : float :=
  if is_nan a || is_nan b then nan
  else if a <? b then a
  else if b <? a then b
  else if is_zero a && get_sign a then a else b.

(** The number nearest to a natural number (exact below 2^53). *)
Definition num_of_nat (n : nat) : float :=
  SF2Prim (SpecFloat.binary_normalize prec emax (Z.of_nat n) 0 false).

(** What a variable of the component can hold where the code stores either
    a number or the string made by [toFixed]. *)
Inductive value : Type :=
| Null
| Num (v : float)
| Str (s : string).

Definition absent (v : value) : Prop := v = Null.

(** Decimal digits of a non-negative integer, "0" for zero. *)
Definition decimal (n : Z) : string :=
  DecimalString.NilZero.string_of_uint (N.to_uint (Z.to_N n)).

(** The integer [n] for which [n / 100] is closest to [m * 2^e], the larger
    one on a tie (Number.prototype.toFixed, step "let n be an integer for
    which n / 10^f - x is as close to zero as possible"). *)
Definition hundredths (m : positive) (e : Z) : Z :=
  if (0 <=? e)%Z then (Z.pos m * 2 ^ e * 100)%Z
  else ((200 * Z.pos m + 2 ^ (- e)) / 2 ^ (1 - e))%Z.

(** Digits of [n] with a point before the last two, zero-padded on the left
    to at least three digits. *)
Definition pointTwo (n : Z) : string :=
  let d := decimal n in
  let d := match String.length d with
           | 1%nat => ("00" ++ d)%string
           | 2%nat => ("0" ++ d)%string
           | _ => d
           end in
  let k := String.length d in
  (substring 0 (k - 2) d ++ "." ++ substring (k - 2) 2 d)%string.

(** [v.toFixed(2)].  [toStringLarge] is Number::toString, reached only when
    [|v| >= 1e21]. *)
Definition toFixed2 (toStringLarge : float -> string) (v : float) : string :=
  match Prim2SF v with
  | S754_nan => "NaN"%string
  | S754_infinity false => "Infinity"%string
  | S754_infinity true => "-Infinity"%string
  | S754_zero _ => "0.00"%string
  | S754_finite s m e =>
      if 1e21 <=? abs v then toStringLarge v
      else ((if s then "-" else "") ++ pointTwo (hundredths m e))%string
  end.

End JS.

(* ===================================================================== *)
(** ** Randomness and the effect monad *)
(* ===================================================================== *)

(** The values [Math.random] returns, in call order, and how many of them
    have been consumed. *)
Record Rng : Type := mkRng { draws : nat -> float; cursor : nat }.

Definition Eff (A : Type) : Type := Rng -> A * Rng.

Definition ret {A : Type} (a : A) : Eff A := fun r => (a, r).

Definition bind {A B : Type} (m : Eff A) (k : A -> Eff B) : Eff B :=
  fun r => let (a, r') := m r in k a r'.

Declare Scope eff_scope.
Delimit Scope eff_scope with eff.
Notation "x <- m ;; k" := (bind m (fun x => k))
  (at level 61, m at next level, right associativity) : eff_scope.
Notation "' pat <- m ;; k" := (bind m (fun x => match x with pat => k end))
  (at level 61, pat pattern, m at next level, right associativity) : eff_scope.

Definition Math_random : Eff float :=
  fun r => (draws r (cursor r), mkRng (draws r) (S (cursor r))).

(** [xs.map(f)] / [xs.forEach(f)] with an effectful body, left to right. *)
Fixpoint mapM {A B : Type} (f : A -> Eff B) (xs : list A) : Eff (list B) :=
  match xs with
  | [] => ret []
  | a :: rest => bind (f a) (fun b => bind (mapM f rest) (fun bs => ret (b :: bs)))
  end.

(** A loop over [xs] threading an accumulator. *)
Fixpoint foldM {A S : Type} (f : A -> S -> Eff S) (xs : list A) (s : S) : Eff S :=
  match xs with
  | [] => ret s
  | a :: rest => bind (f a s) (fun s' => foldM f rest s')
  end.

(* ===================================================================== *)
(** ** Data model *)
(* ===================================================================== *)

(** The strings stored in [person.status]; the code assigns no other. *)
Inductive Status : Type :=
| healthy | exposed | infected | asymptomatic | quarantined | recovered | dead.

Inductive AgeGroup : Type := child | adult | senior.

Definition status_eqb (a b : Status) : bool :=
  match a, b with
  | healthy, healthy | exposed, exposed | infected, infected
  | asymptomatic, asymptomatic | quarantined, quarantined
  | recovered, recovered | dead, dead => true
  | _, _ => false
  end.

(** One element of [sim.people], fields in the order of the object literal
    in [initializeSimulation]. *)
Record Person : Type := mkPerson {
  id : nat;
  x : float;
  y : float;
  vx : float;
  vy : float;
  status : Status;
  infectedTime : option float;
  ageGroup : AgeGroup;
  exposedTime : option float;
  incubationPeriod : float;
  asymptomaticFlag : bool;
  infectionRadius : float;
  personalRecovery : float;
  oldRecoveryTime : float;
  immunityEndTime : option float;
  infectedBy : option nat;
  infectionsSpread : nat
}.

(** Field assignments. *)
Definition set_x (v : float) (p : Person) : Person :=
  mkPerson (id p) v (y p) (vx p) (vy p) (status p) (infectedTime p) (ageGroup p)
    (exposedTime p) (incubationPeriod p) (asymptomaticFlag p) (infectionRadius p)
    (personalRecovery p) (oldRecoveryTime p) (immunityEndTime p) (infectedBy p)
    (infectionsSpread p).
Definition set_y (v : float) (p : Person) : Person :=
  mkPerson (id p) (x p) v (vx p) (vy p) (status p) (infectedTime p) (ageGroup p)
    (exposedTime p) (incubationPeriod p) (asymptomaticFlag p) (infectionRadius p)
    (personalRecovery p) (oldRecoveryTime p) (immunityEndTime p) (infectedBy p)
    (infectionsSpread p).
Definition set_vx (v : float) (p : Person) : Person :=
  mkPerson (id p) (x p) (y p) v (vy p) (status p) (infectedTime p) (ageGroup p)
    (exposedTime p) (incubationPeriod p) (asymptomaticFlag p) (infectionRadius p)
    (personalRecovery p) (oldRecoveryTime p) (immunityEndTime p) (infectedBy p)
    (infectionsSpread p).
Definition set_vy (v : float) (p : Person) : Person :=
  mkPerson (id p) (x p) (y p) (vx p) v (status p) (infectedTime p) (ageGroup p)
    (exposedTime p) (incubationPeriod p) (asymptomaticFlag p) (infectionRadius p)
    (personalRecovery p) (oldRecoveryTime p) (immunityEndTime p) (infectedBy p)
    (infectionsSpread p).
Definition set_status (v : Status) (p : Person) : Person :=
  mkPerson (id p) (x p) (y p) (vx p) (vy p) v (infectedTime p) (ageGroup p)
    (exposedTime p) (incubationPeriod p) (asymptomaticFlag p) (infectionRadius p)
    (personalRecovery p) (oldRecoveryTime p) (immunityEndTime p) (infectedBy p)
    (infectionsSpread p).
Definition set_infectedTime (v : option float) (p : Person) : Person :=
  mkPerson (id p) (x p) (y p) (vx p) (vy p) (status p) v (ageGroup p)
    (exposedTime p) (incubationPeriod p) (asymptomaticFlag p) (infectionRadius p)
    (personalRecovery p) (oldRecoveryTime p) (immunityEndTime p) (infectedBy p)
    (infectionsSpread p).
Definition set_exposedTime (v : option float) (p : Person) : Person :=
  mkPerson (id p) (x p) (y p) (vx p) (vy p) (status p) (infectedTime p) (ageGroup p)
    v (incubationPeriod p) (asymptomaticFlag p) (infectionRadius p)
    (personalRecovery p) (oldRecoveryTime p) (immunityEndTime p) (infectedBy p)
    (infectionsSpread p).
Definition set_asymptomaticFlag (v : bool) (p : Person) : Person :=
  mkPerson (id p) (x p) (y p) (vx p) (vy p) (status p) (infectedTime p) (ageGroup p)
    (exposedTime p) (incubationPeriod p) v (infectionRadius p)
    (personalRecovery p) (oldRecoveryTime p) (immunityEndTime p) (infectedBy p)
    (infectionsSpread p).
Definition set_personalRecovery (v : float) (p : Person) : Person :=
  mkPerson (id p) (x p) (y p) (vx p) (vy p) (status p) (infectedTime p) (ageGroup p)
    (exposedTime p) (incubationPeriod p) (asymptomaticFlag p) (infectionRadius p)
    v (oldRecoveryTime p) (immunityEndTime p) (infectedBy p)
    (infectionsSpread p).
Definition set_oldRecoveryTime (v : float) (p : Person) : Person :=
  mkPerson (id p) (x p) (y p) (vx p) (vy p) (status p) (infectedTime p) (ageGroup p)
    (exposedTime p) (incubationPeriod p) (asymptomaticFlag p) (infectionRadius p)
    (personalRecovery p) v (immunityEndTime p) (infectedBy p)
    (infectionsSpread p).
Definition set_immunityEndTime (v : option float) (p : Person) : Person :=
  mkPerson (id p) (x p) (y p) (vx p) (vy p) (status p) (infectedTime p) (ageGroup p)
    (exposedTime p) (incubationPeriod p) (asymptomaticFlag p) (infectionRadius p)
    (personalRecovery p) (oldRecoveryTime p) v (infectedBy p)
    (infectionsSpread p).
Definition set_infectedBy (v : option nat) (p : Person) : Person :=
  mkPerson (id p) (x p) (y p) (vx p) (vy p) (status p) (infectedTime p) (ageGroup p)
    (exposedTime p) (incubationPeriod p) (asymptomaticFlag p) (infectionRadius p)
    (personalRecovery p) (oldRecoveryTime p) (immunityEndTime p) v
    (infectionsSpread p).
Definition set_infectionsSpread (v : nat) (p : Person) : Person :=
  mkPerson (id p) (x p) (y p) (vx p) (vy p) (status p) (infectedTime p) (ageGroup p)
    (exposedTime p) (incubationPeriod p) (asymptomaticFlag p) (infectionRadius p)
    (personalRecovery p) (oldRecoveryTime p) (immunityEndTime p) (infectedBy p)
    v.

(** An element of [sim.infections]. *)
Record Infection : Type := mkInfection {
  from : nat;
  to : nat;
  at_time : float
}.

(** [simulationRef.current]. *)
Record Sim : Type := mkSim {
  people : list Person;
  time : float;
  infections : list Infection
}.

(** The component state the engine reads, and the canvas the ref points to
    ([None] while [canvasRef.current] is null; otherwise its width and
    height). *)
Record Config : Type := mkConfig {
  speed : float;
  populationSize : nat;
  infectionRate : float;
  recoveryTime : float;
  mobilityRate : float;
  initialInfected : nat;
  quarantineDelay : float;
  maskEnabled : bool;
  healthcareCapacity : float;
  vaccinationRate : float;
  immunityDuration : float;
  canvas : option (float * float)
}.

(** The argument of [setStats]. *)
Record Stats : Type := mkStats {
  st_healthy : nat;
  st_infected : nat;
  st_recovered : nat;
  st_dead : nat;
  r0Value : JS.value;
  rtValue : JS.value
}.

(** The seven local tallies of [updateSimulation]. *)
Record Counts : Type := mkCounts {
  n_healthy : nat;
  n_exposed : nat;
  n_asymptomatic : nat;
  n_infected : nat;
  n_quarantined : nat;
  n_recovered : nat;
  n_dead : nat
}.

(** The library functions whose results ECMAScript leaves to the engine. *)
Record Host : Type := mkHost {
  Math_sin : float -> float;
  Math_cos : float -> float;
  Math_atan2 : float -> float -> float;
  Number_toString : float -> string
}.

(** The values ECMA-262 fixes exactly: atan2(+0, +0) = +0, cos(+0) = 1,
    sin(+0) = +0. *)
Definition ecma_zero_cases (host : Host) : Prop :=
  Math_atan2 host 0%float 0%float = 0%float /\
  Math_cos host 0%float = 1%float /\
  Math_sin host 0%float = 0%float.

(** [people[i] = p], leaving the array alone when [i] is out of range (the
    engine never writes out of range). *)
Fixpoint update {A : Type} (i : nat) (a : A) (xs : list A) : list A :=
  match xs, i with
  | [], _ => []
  | _ :: rest, O => a :: rest
  | b :: rest, S k => b :: update k a rest
  end.

Fixpoint nat_sum (f : Person -> nat) (xs : list Person) : nat :=
  match xs with
  | [] => 0
  | p :: rest => f p + nat_sum f rest
  end.

(* ===================================================================== *)
(** ** Recovery-time rescaling, over the arithmetic it is run in *)
(* ===================================================================== *)

(** The operations the body of [updateSimulationParameters] uses; the
    component runs it in binary64. *)
Record Arith (num : Type) : Type := mkArith {
  a_mul : num -> num -> num;
  a_div : num -> num -> num;
  a_truthy : num -> bool;
  a_positive : num -> bool;
  a_5000 : num
}.
Arguments a_mul {num}. Arguments a_div {num}. Arguments a_truthy {num}.
Arguments a_positive {num}. Arguments a_5000 {num}.

Definition binary64 : Arith float :=
  mkArith float PrimFloat.mul PrimFloat.div JS.truthy (fun v => JS.gtb v 0%float)
    5000%float.

(** The new [person.personalRecovery]:
    [if (person.oldRecoveryTime && person.oldRecoveryTime > 0)] take the
    multiplier against the stored base, otherwise against 5000. *)
Definition rescale {num : Type} (A : Arith num)
    (recoveryTime personalRecovery oldRecoveryTime : num) : num :=
  if a_truthy A oldRecoveryTime && a_positive A oldRecoveryTime then
    let multiplier := a_div A personalRecovery oldRecoveryTime in
    a_mul A recoveryTime multiplier
  else
    let multiplier := a_div A personalRecovery (a_5000 A) in
    a_mul A recoveryTime multiplier.

(* ===================================================================== *)
(** ** The engine *)
(* ===================================================================== *)

Definition ageGroup_eqb (a b : AgeGroup) : bool :=
  match a, b with
  | child, child | adult, adult | senior, senior => true
  | _, _ => false
  end.

Definition isStatus (p : Person) (s : Status) : bool := status_eqb (status p) s.

Section Engine.

Variable host : Host.

Local Open Scope float_scope.
Local Open Scope bool_scope.
Local Open Scope eff_scope.

(** The object pushed for index [i] in [initializeSimulation]; the eight
    draws are made in the order of the literal's fields. *)
Definition newPerson (cfg : Config) (w h : float) (i : nat) : Eff Person :=
  rx <- Math_random ;;
  ry <- Math_random ;;
  rvx <- Math_random ;;
  rvy <- Math_random ;;
  r <- Math_random ;;
  rinc <- Math_random ;;
  rrad <- Math_random ;;
  rrec <- Math_random ;;
  ret {| id := i;
         x := rx * w;
         y := ry * h;
         vx := (rvx - 0.5) * 2;
         vy := (rvy - 0.5) * 2;
         status := if Nat.ltb i (initialInfected cfg) then infected else healthy;
         infectedTime := if Nat.ltb i (initialInfected cfg) then Some 0 else None;
         ageGroup := if r <? 0.25 then child else if r <? 0.8 then adult else senior;
         exposedTime := None;
         incubationPeriod := 1000 + rinc * 2000;
         asymptomaticFlag := false;
         infectionRadius := 8 + rrad * 4;
         personalRecovery := recoveryTime cfg * (0.7 + rrec * 0.6);
         oldRecoveryTime := recoveryTime cfg;
         immunityEndTime := None;
         infectedBy := None;
         infectionsSpread := 0 |}.

Definition initializeSimulation (cfg : Config) : Eff Sim :=
  let w := match canvas cfg with Some (cw, _) => JS.orElse cw 700 | None => 700 end in
  let h := match canvas cfg with Some (_, ch) => JS.orElse ch 500 | None => 500 end in
  people <- mapM (newPerson cfg w h) (seq 0 (populationSize cfg)) ;;
  ret {| people := people; time := 0; infections := [] |}.

Definition updateSimulationParameters (cfg : Config) (sim : Sim) : Sim :=
  if Nat.eqb (List.length (people sim)) 0 then sim
  else
    {| people :=
         map (fun person =>
                let person :=
                  set_personalRecovery
                    (rescale binary64 (recoveryTime cfg) (personalRecovery person)
                       (oldRecoveryTime person)) person in
                set_oldRecoveryTime (recoveryTime cfg) person)
             (people sim);
       time := time sim;
       infections := infections sim |}.

(** [attemptInfection(person1, person2)]; [now] is
    [simulationRef.current.time] and [log] is [simulationRef.current.infections].
    The two arguments are always distinct objects (the scan calls it on
    [people[i]] and [people[j]] with [i < j]).  Returns both objects, the log
    and the function's result. *)
Definition attemptInfection (cfg : Config) (now : float)
    (person1 person2 : Person) (log : list Infection)
    : Eff (Person * Person * list Infection * bool) :=
  if isStatus person1 quarantined || isStatus person2 quarantined then
    ret (person1, person2, log, false)
  else
    let infectious := isStatus person1 infected || isStatus person1 asymptomatic in
    if infectious && isStatus person2 healthy then
      let maskFactor := if maskEnabled cfg then 0.5 else 1 in
      let asympFactor := if isStatus person1 asymptomatic then 0.5 else 1 in
      let effectiveRate := infectionRate cfg * maskFactor * asympFactor in
      u <- Math_random ;;
      if u <? effectiveRate then
        let person2 := set_status exposed person2 in
        let person2 := set_exposedTime (Some now) person2 in
        let person2 := set_status infected person2 in
        let person2 := set_infectedTime (Some now) person2 in
        let person2 := set_infectedBy (Some (id person1)) person2 in
        let person1 := set_infectionsSpread (S (infectionsSpread person1)) person1 in
        ret (person1, person2,
             log ++ [{| from := id person1; to := id person2; at_time := now |}],
             true)
      else ret (person1, person2, log, false)
    else ret (person1, person2, log, false).

Definition baseMortality (g : AgeGroup) : float :=
  if ageGroup_eqb g child then 0.2 else if ageGroup_eqb g adult then 0.05 else 0.2.

Definition mortalityRate (g : AgeGroup) (overCapacity : bool) : float :=
  baseMortality g * (if overCapacity then 1.5 else 1.0).

(** [determineOutcome(person, overCapacity)]; [overCapacity] is the argument
    after ToBoolean.  No code assigns [person.immunityDurationRef], so
    [person.immunityDurationRef || immunityDuration] is [immunityDuration]. *)
Definition determineOutcome (cfg : Config) (now : float) (person : Person)
    (overCapacity : bool) : Eff Person :=
  u <- Math_random ;;
  if u <? mortalityRate (ageGroup person) overCapacity then
    let person := set_status dead person in
    let person := set_vx 0 person in
    ret (set_vy 0 person)
  else
    let person := set_status recovered person in
    ret (set_immunityEndTime (Some (now + immunityDuration cfg)) person).

(** The random walk of the per-person update (the block guarded by
    [!isQuarantined && mobilityRate > 0 && Math.random() < mobilityRate]).
    [v ** 2] is [v * v]. *)
Definition randomWalk (cfg : Config) (isQuarantined : bool) (person : Person)
    : Eff Person :=
  if negb isQuarantined && JS.gtb (mobilityRate cfg) 0 then
    u <- Math_random ;;
    if u <? mobilityRate cfg then
      let accelScale := mobilityRate cfg in
      r1 <- Math_random ;;
      let person := set_vx (vx person + (r1 - 0.5) * 0.5 * accelScale) person in
      r2 <- Math_random ;;
      let person := set_vy (vy person + (r2 - 0.5) * 0.5 * accelScale) person in
      let maxSpeed := 0.2 + 1.8 * mobilityRate cfg in
      let currentSpeed := sqrt (vx person * vx person + vy person * vy person) in
      if JS.gtb currentSpeed maxSpeed then
        let person := set_vx (vx person / currentSpeed * maxSpeed) person in
        ret (set_vy (vy person / currentSpeed * maxSpeed) person)
      else ret person
    else ret person
  else ret person.

(** Position update and reflection at the arena's margins. *)
Definition displace (cfg : Config) (w h : float) (isQuarantined : bool)
    (person : Person) : Person :=
  let person :=
    if negb isQuarantined then
      let person := set_x (x person + vx person * mobilityRate cfg) person in
      set_y (y person + vy person * mobilityRate cfg) person
    else person in
  let person :=
    if (x person <? 5) || JS.gtb (x person) (w - 5) then
      let person := set_vx (vx person * (-1)) person in
      set_x (JS.Math_max 5 (JS.Math_min (w - 5) (x person))) person
    else person in
  if (y person <? 5) || JS.gtb (y person) (h - 5) then
    let person := set_vy (vy person * (-1)) person in
    set_y (JS.Math_max 5 (JS.Math_min (h - 5) (y person))) person
  else person.

(** Exposed to infectious. *)
Definition incubate (now : float) (person : Person) : Eff Person :=
  if isStatus person exposed
     && JS.gtb (now - JS.toNumber (exposedTime person)) (incubationPeriod person) then
    u <- Math_random ;;
    let person := set_asymptomaticFlag (u <? 0.4) person in
    let person :=
      set_status (if asymptomaticFlag person then asymptomatic else infected) person in
    ret (set_infectedTime (Some now) person)
  else ret person.

(** Infected to quarantined.  No code assigns [person.quarantineDelayRef], so
    [person.quarantineDelayRef || quarantineDelay] is [quarantineDelay]. *)
Definition isolate (cfg : Config) (now : float) (person : Person) : Person :=
  if isStatus person infected
     && JS.gtb (now - JS.toNumber (infectedTime person)) (quarantineDelay cfg) then
    let person := set_status quarantined person in
    let person := set_vx 0 person in
    set_vy 0 person
  else person.

(** The recovery check; [determineOutcome(person)] is called with one
    argument, so [overCapacity] is [undefined], which is false. *)
Definition resolve (cfg : Config) (now : float) (person : Person) : Eff Person :=
  let isInfectiousState :=
    isStatus person infected || isStatus person quarantined
    || isStatus person asymptomatic in
  if isInfectiousState
     && JS.gtb (now - JS.toNumber (infectedTime person)) (personalRecovery person) then
    determineOutcome cfg now person false
  else ret person.

(** The callback of the first [people.forEach] in [updateSimulation]. *)
Definition stepPerson (cfg : Config) (w h now : float) (person : Person)
    : Eff Person :=
  if isStatus person dead then ret person
  else
    let isQuarantined := isStatus person quarantined in
    person <- randomWalk cfg isQuarantined person ;;
    let person := displace cfg w h isQuarantined person in
    person <- incubate now person ;;
    let person := isolate cfg now person in
    resolve cfg now person.

(** The index pairs visited by
    [for (i = 0; i < n; i++) for (j = i + 1; j < n; j++)], in order. *)
Definition pairs (n : nat) : list (nat * nat) :=
  flat_map (fun i => map (fun j => (i, j)) (seq (S i) (n - S i))) (seq 0 n).

(** The body of the inner loop for [(i, j)]: de-overlap and the two
    infection attempts. *)
Definition scanPair (cfg : Config) (ij : nat * nat) (sim : Sim) : Eff Sim :=
  match nth_error (people sim) (fst ij), nth_error (people sim) (snd ij) with
  | Some p1, Some p2 =>
      let dx := x p1 - x p2 in
      let dy := y p1 - y p2 in
      let distance := sqrt (dx * dx + dy * dy) in
      if distance <? 10 then
        let angle := Math_atan2 host dy dx in
        let sin := Math_sin host angle in
        let cos := Math_cos host angle in
        let overlap := 10 - distance in
        let p1 := set_x (x p1 + cos * overlap / 2) p1 in
        let p1 := set_y (y p1 + sin * overlap / 2) p1 in
        let p2 := set_x (x p2 - cos * overlap / 2) p2 in
        let p2 := set_y (y p2 - sin * overlap / 2) p2 in
        ' (p1, p2, log, _) <- attemptInfection cfg (time sim) p1 p2 (infections sim) ;;
        ' (p2, p1, log, _) <- attemptInfection cfg (time sim) p2 p1 log ;;
        ret {| people := update (snd ij) p2 (update (fst ij) p1 (people sim));
               time := time sim;
               infections := log |}
      else ret sim
  | _, _ => ret sim
  end.

(** The tallies of the statistics loop. *)
Definition bump (c : Counts) (p : Person) : Counts :=
  if isStatus p healthy then
    mkCounts (S (n_healthy c)) (n_exposed c) (n_asymptomatic c) (n_infected c)
      (n_quarantined c) (n_recovered c) (n_dead c)
  else if isStatus p exposed then
    mkCounts (n_healthy c) (S (n_exposed c)) (n_asymptomatic c) (n_infected c)
      (n_quarantined c) (n_recovered c) (n_dead c)
  else if isStatus p asymptomatic then
    mkCounts (n_healthy c) (n_exposed c) (S (n_asymptomatic c)) (n_infected c)
      (n_quarantined c) (n_recovered c) (n_dead c)
  else if isStatus p infected then
    mkCounts (n_healthy c) (n_exposed c) (n_asymptomatic c) (S (n_infected c))
      (n_quarantined c) (n_recovered c) (n_dead c)
  else if isStatus p quarantined then
    mkCounts (n_healthy c) (n_exposed c) (n_asymptomatic c) (n_infected c)
      (S (n_quarantined c)) (n_recovered c) (n_dead c)
  else if isStatus p recovered then
    mkCounts (n_healthy c) (n_exposed c) (n_asymptomatic c) (n_infected c)
      (n_quarantined c) (S (n_recovered c)) (n_dead c)
  else if isStatus p dead then
    mkCounts (n_healthy c) (n_exposed c) (n_asymptomatic c) (n_infected c)
      (n_quarantined c) (n_recovered c) (S (n_dead c))
  else c.

Definition tally (ps : list Person) : Counts :=
  fold_left bump ps (mkCounts 0 0 0 0 0 0 0).

Definition total (c : Counts) : nat :=
  n_healthy c + n_exposed c + n_infected c + n_asymptomatic c + n_quarantined c
  + n_recovered c + n_dead c.

Definition concluded (p : Person) : bool :=
  isStatus p recovered || isStatus p dead.

(** The filter behind R0. *)
Definition initialInfections (cfg : Config) (ps : list Person) : list Person :=
  filter (fun p => Nat.ltb (id p) (initialInfected cfg)
                   && JS.notNull (infectedTime p) && concluded p) ps.

(** The filter behind Rt. *)
Definition completedInfections (ps : list Person) : list Person :=
  filter (fun p => JS.notNull (infectedTime p) && concluded p) ps.

(** [(total / group.length).toFixed(2)] with [total] the [reduce] over
    [infectionsSpread]. *)
Definition meanSpread (group : list Person) : float :=
  JS.num_of_nat (fold_left (fun sum p => sum + infectionsSpread p)%nat group 0%nat)
  / JS.num_of_nat (List.length group).

Definition reproduction (group : list Person) : JS.value :=
  if Nat.ltb 0 (List.length group) then
    JS.Str (JS.toFixed2 (Number_toString host) (meanSpread group))
  else JS.Num 0.

Definition statistics (cfg : Config) (ps : list Person) : Stats :=
  let c := tally ps in
  {| st_healthy := n_healthy c;
     st_infected := n_infected c + n_quarantined c;
     st_recovered := n_recovered c;
     st_dead := n_dead c;
     r0Value := reproduction (initialInfections cfg ps);
     rtValue := reproduction (completedInfections ps) |}.

(** [updateSimulation]: the new [simulationRef.current] and the argument of
    [setStats], if it is called. *)
Definition updateSimulation (cfg : Config) (sim : Sim) : Eff (Sim * option Stats) :=
  match canvas cfg with
  | None => ret (sim, None)
  | Some (w, h) =>
      let deltaTime := 16 * speed cfg in
      let now := time sim + deltaTime in
      people' <- mapM (stepPerson cfg w h now) (people sim) ;;
      sim' <- foldM (scanPair cfg) (pairs (List.length people'))
                {| people := people'; time := now; infections := infections sim |} ;;
      ret (sim', Some (statistics cfg (people sim')))
  end.

End Engine.

(* ===================================================================== *)
(** ** Reachable states, invariants and concrete inputs *)
(* ===================================================================== *)

(** The states [simulationRef.current] goes through for a fixed population
    size [n] and number [k] of index cases: the one built by
    [initializeSimulation], then any interleaving of [updateSimulation] and
    [updateSimulationParameters], under any setting of the other controls
    and any sequence of draws.  (Changing [n] or [k] re-runs
    [initializeSimulation].) *)
Inductive reachable (host : Host) (n k : nat) : Sim -> Prop :=
| reach_init : forall cfg r,
    populationSize cfg = n -> initialInfected cfg = k ->
    reachable host n k (fst (initializeSimulation cfg r))
| reach_params : forall cfg s,
    reachable host n k s ->
    populationSize cfg = n -> initialInfected cfg = k ->
    reachable host n k (updateSimulationParameters cfg s)
| reach_step : forall cfg s r,
    reachable host n k s ->
    populationSize cfg = n -> initialInfected cfg = k ->
    reachable host n k (fst (fst (updateSimulation host cfg s r))).

(** A velocity component that is +0 or -0. *)
Definition zeroish (v : float) : Prop := v = 0%float \/ v = (-0)%float.

Definition at_rest (p : Person) : Prop := zeroish (vx p) /\ zeroish (vy p).

(** What holds of every agent of a reachable state. *)
Definition wf (p : Person) : Prop :=
  status p <> exposed /\
  status p <> asymptomatic /\
  (status p = quarantined \/ status p = dead -> at_rest p) /\
  (status p <> healthy -> infectedTime p <> None).

(** Every result of an effectful computation satisfies [Q], whatever the
    draws. *)
Definition post {A : Type} (m : Eff A) (Q : A -> Prop) : Prop :=
  forall r, Q (fst (m r)).

(** A host that has the values ECMA-262 fixes at zero and coarse
    approximations elsewhere; it stands for the engine's library in concrete
    runs, all of which stay on the fixed values and never format a number of
    magnitude 1e21 or more. *)
Definition plainHost : Host :=
  {| Math_sin := fun a => a;
     Math_cos := fun a => (1 - a * a / 2)%float;
     Math_atan2 := fun b a => if (0 <? a)%float then (b / a)%float else 0%float;
     Number_toString := fun _ => "Infinity"%string |}.

(** The draws listed in [l], then [d] forever. *)
Definition drawsOf (l : list float) (d : float) : nat -> float :=
  fun n => nth n l d.

(** The component's initial settings, on a mounted 700 x 500 canvas. *)
Definition defaults : Config :=
  {| speed := 1;
     populationSize := 200;
     infectionRate := 0.3;
     recoveryTime := 5000;
     mobilityRate := 0.5;
     initialInfected := 3;
     quarantineDelay := 3000;
     maskEnabled := false;
     healthcareCapacity := 30;
     vaccinationRate := 0;
     immunityDuration := 15000;
     canvas := Some (700%float, 500%float) |}.

Definition with_population (n k : nat) (cfg : Config) : Config :=
  {| speed := speed cfg;
     populationSize := n;
     infectionRate := infectionRate cfg;
     recoveryTime := recoveryTime cfg;
     mobilityRate := mobilityRate cfg;
     initialInfected := k;
     quarantineDelay := quarantineDelay cfg;
     maskEnabled := maskEnabled cfg;
     healthcareCapacity := healthcareCapacity cfg;
     vaccinationRate := vaccinationRate cfg;
     immunityDuration := immunityDuration cfg;
     canvas := canvas cfg |}.

Definition with_recoveryTime (v : float) (cfg : Config) : Config :=
  {| speed := speed cfg;
     populationSize := populationSize cfg;
     infectionRate := infectionRate cfg;
     recoveryTime := v;
     mobilityRate := mobilityRate cfg;
     initialInfected := initialInfected cfg;
     quarantineDelay := quarantineDelay cfg;
     maskEnabled := maskEnabled cfg;
     healthcareCapacity := healthcareCapacity cfg;
     vaccinationRate := vaccinationRate cfg;
     immunityDuration := immunityDuration cfg;
     canvas := canvas cfg |}.

(** Three agents, one index case.  Agents 0 and 1 are created on the same
    spot (350, 250), agent 2 five units to the left, all with zero velocity.
    In the first tick nobody performs the random walk (draws 0.9 against a
    mobility of 0.5) and both infection draws are 0. *)
Definition chainConfig : Config := with_population 3 1 defaults.

Definition chainDraws : nat -> float :=
  drawsOf
    [ 0.5; 0.5; 0.5; 0.5; 0.5; 0.5; 0.5; 0.5;
      0.5; 0.5; 0.5; 0.5; 0.5; 0.5; 0.5; 0.5;
      345 / 700; 0.5; 0.5; 0.5; 0.5; 0.5; 0.5; 0.5;
      0.9; 0.9; 0.9;
      0; 0 ]%float 0.9%float.

Definition chainStart : Sim * Rng :=
  initializeSimulation chainConfig (mkRng chainDraws 0).

(** A quarantined agent and a dead agent lying on the same spot, both at
    rest, at clock 3200. *)
Definition bumpStart : Sim :=
  {| people :=
       [ mkPerson 0 350 250 0 0 quarantined (Some 0%float) adult None 2000 false 10
           5000 5000 None None 0;
         mkPerson 1 350 250 0 0 dead (Some 0%float) senior None 2000 false 10
           3500 5000 None None 0 ];
     time := 3200;
     infections := [] |}.

Definition bumpConfig : Config := with_population 2 2 defaults.

Definition noDraws : Rng := mkRng (fun _ => 0.9%float) 0.

(** One dead agent whose recovery time was drawn against a base of 5000. *)
Definition graveyard : Sim :=
  {| people :=
       [ mkPerson 0 350 250 0 0 dead (Some 0%float) senior None 2000 false 10
           5000 5000 None None 0 ];
     time := 6000;
     infections := [] |}.

(** One agent created with the default recovery time of 5000; the draw behind
    [personalRecovery] is 0.074545454545454734. *)
Definition roundingConfig : Config := with_population 1 1 defaults.

Definition roundingDraws : nat -> float :=
  drawsOf [ 0.5; 0.5; 0.5; 0.5; 0.5; 0.5; 0.5; 0.074545454545454734 ]%float
    0.5%float.

(** Three index cases whose episodes are over, with 1, 0 and 0 secondary
    infections. *)
Definition closedCases : list Person :=
  [ mkPerson 0 100 100 0 0 recovered (Some 0%float) adult None 2000 false 10
      5000 5000 (Some 20000%float) None 1;
    mkPerson 1 200 200 0 0 dead (Some 0%float) senior None 2000 false 10
      5000 5000 None None 0;
    mkPerson 2 300 300 0 0 recovered (Some 0%float) child None 2000 false 10
      5000 5000 (Some 20000%float) None 0 ].

(** The groups the reproduction numbers are specified over. *)
Definition indexConcluded (k : nat) (ps : list Person) : list Person :=
  filter (fun p => Nat.ltb (id p) k && concluded p) ps.

Definition allConcluded (ps : list Person) : list Person :=
  filter concluded ps.

(** The mean of [infectionsSpread] over a group, as a number. *)
Definition mean (group : list Person) : float :=
  (JS.num_of_nat (nat_sum infectionsSpread group)
   / JS.num_of_nat (List.length group))%float.

(** A pair of the scan is on fixed values when the two agents lie exactly on
    the same spot (so the trigonometric calls are the ones ECMA-262 fixes) or
    are not in contact (so there are none). *)
Definition pairOnFixed (ij : nat * nat) (s : Sim) : Prop :=
  match nth_error (people s) (fst ij), nth_error (people s) (snd ij) with
  | Some p1, Some p2 =>
      ((x p1 - x p2)%float = 0%float /\ (y p1 - y p2)%float = 0%float) \/
      (let dx := (x p1 - x p2)%float in
       let dy := (y p1 - y p2)%float in
       (sqrt (dx * dx + dy * dy) <? 10)%float = false)
  | _, _ => True
  end.

(** A scan all of whose pairs are on fixed values. *)
Fixpoint scanOnFixed (cfg : Config) (ps : list (nat * nat)) (s : Sim) (r : Rng)
    : Prop :=
  match ps with
  | [] => True
  | ij :: rest =>
      pairOnFixed ij s /\
      scanOnFixed cfg rest (fst (scanPair plainHost cfg ij s r))
        (snd (scanPair plainHost cfg ij s r))
  end.

(** A tick whose scan is on fixed values. *)
Definition tickOnFixed (cfg : Config) (s : Sim) (r : Rng) : Prop :=
  match canvas cfg with
  | None => True
  | Some (w, h) =>
      let now := (time s + 16 * speed cfg)%float in
      let m := mapM (stepPerson cfg w h now) (people s) r in
      scanOnFixed cfg (pairs (List.length (fst m)))
        {| people := fst m; time := now; infections := infections s |} (snd m)
  end.

(* ===================================================================== *)
(** ** Vocabulary for the behaviour of one tick *)
(* ===================================================================== *)

(** The second phase of [updateSimulation]: the nested loops over all index
    pairs of [sim.people]. *)
Definition contactScan (host : Host) (cfg : Config) (sim : Sim) : Eff Sim :=
  foldM (scanPair host cfg) (pairs (List.length (people sim))) sim.

(** The first phase of [updateSimulation]: the clock is advanced and the
    per-person callback runs over [sim.people]. *)
Definition agePhase (cfg : Config) (w h : float) (sim : Sim) : Eff Sim :=
  let now := (time sim + 16 * speed cfg)%float in
  bind (mapM (stepPerson cfg w h now) (people sim))
    (fun ps => ret {| people := ps; time := now; infections := infections sim |}).

(** The status changes the per-person callback can make in one call. *)
Definition ages (a b : Status) : bool :=
  match a, b with
  | healthy, healthy => true
  | exposed, healthy => false
  | exposed, _ => true
  | infected, (infected | quarantined | recovered | dead) => true
  | asymptomatic, (asymptomatic | recovered | dead) => true
  | quarantined, (quarantined | recovered | dead) => true
  | recovered, recovered => true
  | dead, dead => true
  | _, _ => false
  end.

(** The status changes one call of [updateSimulation] can make: those of
    the per-person callback, and healthy to infected in the contact scan. *)
Definition mayBecome (a b : Status) : bool :=
  ages a b || (status_eqb a healthy && status_eqb b infected).

(** The fields no phase of a tick writes. *)
Definition sameIdentity (p q : Person) : Prop :=
  id q = id p /\ ageGroup q = ageGroup p /\
  incubationPeriod q = incubationPeriod p /\
  infectionRadius q = infectionRadius p /\
  personalRecovery q = personalRecovery p /\
  oldRecoveryTime q = oldRecoveryTime p.

(** How the per-person callback relates an agent before and after. *)
Definition aged (p q : Person) : Prop :=
  sameIdentity p q /\
  ages (status p) (status q) = true /\
  infectionsSpread q = infectionsSpread p /\
  infectedBy q = infectedBy p.

(** How the contact scan relates an agent before and after. *)
Definition contacted (p q : Person) : Prop :=
  sameIdentity p q /\
  vx q = vx p /\ vy q = vy p /\
  (status q = status p \/ (status p = healthy /\ status q = infected)) /\
  infectionsSpread p <= infectionsSpread q /\
  (status p <> healthy ->
   infectedBy q = infectedBy p /\ infectedTime q = infectedTime p
   /\ exposedTime q = exposedTime p).

(** How a whole tick relates an agent before and after. *)
Definition evolves (p q : Person) : Prop :=
  sameIdentity p q /\
  mayBecome (status p) (status q) = true /\
  infectionsSpread p <= infectionsSpread q /\
  (status p <> healthy -> infectedBy q = infectedBy p).

(** An event between two distinct agents of a population of [n]. *)
Definition validEvent (n : nat) (e : Infection) : Prop :=
  from e < n /\ to e < n /\ from e <> to e.

(** The chart point [initializeSimulation] seeds [chartData] with (its
    [time] is 0); the counts are integers, [Sehat] being a difference. *)
Record ChartPoint : Type := mkChartPoint {
  Sehat : Z;
  Terinfeksi : Z;
  Sembuh : Z;
  Meninggal : Z
}.

Definition seedChartPoint (cfg : Config) : ChartPoint :=
  {| Sehat := Z.of_nat (populationSize cfg) - Z.of_nat (initialInfected cfg);
     Terinfeksi := Z.of_nat (initialInfected cfg);
     Sembuh := 0;
     Meninggal := 0 |}.

(** Run from a generator satisfying [G], [m] returns a result satisfying
    [Q] and leaves a generator satisfying [G]. *)
Definition hoare {A : Type} (G : Rng -> Prop) (m : Eff A) (Q : A -> Prop) : Prop :=
  forall r, G r -> Q (fst (m r)) /\ G (snd (m r)).

(** No draw of the sequence is negative. *)
Definition nonnegative (r : Rng) : Prop :=
  forall n, (draws r n <? 0)%float = false.

(** An agent with its position and velocity blanked. *)
Definition unplaced (p : Person) : Person :=
  set_x 0 (set_y 0 (set_vx 0 (set_vy 0 p))).

Definition with_infectionRate (v : float) (cfg : Config) : Config :=
  {| speed := speed cfg;
     populationSize := populationSize cfg;
     infectionRate := v;
     recoveryTime := recoveryTime cfg;
     mobilityRate := mobilityRate cfg;
     initialInfected := initialInfected cfg;
     quarantineDelay := quarantineDelay cfg;
     maskEnabled := maskEnabled cfg;
     healthcareCapacity := healthcareCapacity cfg;
     vaccinationRate := vaccinationRate cfg;
     immunityDuration := immunityDuration cfg;
     canvas := canvas cfg |}.

(* ===================================================================== *)
(** ** Numbers as reals, and the rounding of one operation *)
(* ===================================================================== *)

(** The real number [m * 2^e]. *)
Definition F2R (m : positive) (e : Z) : R := (IZR (Z.pos m) * powerRZ 2 e)%R.

(** The real value of a number; the zeros have value 0 and so, by
    convention, have NaN and the infinities. *)
Definition valueOf (f : float) : R :=
  match Prim2SF f with
  | S754_finite s m e => if s then (- F2R m e)%R else F2R m e
  | _ => 0%R
  end.

(** The positive normal numbers: finite, above zero, with a full 53-bit
    significand (from 2^-1022 up to the largest finite number). *)
Definition normal (f : float) : Prop := classify f = PNormal.

(** Half the gap between 1 and the next number. *)
Definition unitRoundoff : R := powerRZ 2 (-53).

(** The numbers from 2^-128 to 2^128 (about 2.9e-39 to 3.4e38). *)
Definition moderate (f : float) : bool :=
  ((0x1p-128 <=? f) && (f <=? 0x1p+128))%float.

(** The reading of a shift register of [SpecFloat]: the exact quantity is
    [N / D] in units of the register's last place, [shr_m] is its integer
    part, and the round and sticky bits say where the rest lies with respect
    to one half. *)
Definition located (N D : Z) (mrs : shr_record) : Prop :=
  let m := shr_m mrs in
  (m * D <= N < (m + 1) * D)%Z /\
  match shr_r mrs, shr_s mrs with
  | false, false => N = (m * D)%Z
  | false, true => (m * D < N /\ 2 * N < (2 * m + 1) * D)%Z
  | true, false => (2 * N = (2 * m + 1) * D)%Z
  | true, true => ((2 * m + 1) * D < 2 * N)%Z
  end.

(** The state in which the only agent, created under a recovery time of
    5000, waits for the control to be moved. *)
Definition roundingStart : Sim :=
  fst (initializeSimulation roundingConfig (mkRng roundingDraws 0)).

Definition nobody : Person :=
  mkPerson 0 0 0 0 0 healthy None adult None 0 false 0 0 0 None None 0.

(* ===================================================================== *)
(** ** Reasoning about effectful code *)
(* ===================================================================== *)

Lemma bind_run {A B : Type} (m : Eff A) (k : A -> Eff B) (r : Rng) :
  bind m k r = k (fst (m r)) (snd (m r)).
Proof. unfold bind. destruct (m r); reflexivity. Qed.

Lemma post_ret {A : Type} (a : A) (Q : A -> Prop) : Q a -> post (ret a) Q.
Proof. intros H r. exact H. Qed.

Lemma post_bind {A B : Type} (m : Eff A) (k : A -> Eff B)
    (P : A -> Prop) (Q : B -> Prop) :
  post m P -> (forall a, P a -> post (k a) Q) -> post (bind m k) Q.
Proof.
  intros Hm Hk r. rewrite bind_run. apply Hk. apply Hm.
Qed.

Lemma post_mapM {A B : Type} (f : A -> Eff B) (P : A -> Prop) (Q : B -> Prop) :
  (forall a, P a -> post (f a) Q) ->
  forall xs, Forall P xs ->
  post (mapM f xs) (fun ys => Forall Q ys /\ List.length ys = List.length xs).
Proof.
  intros Hf xs HP. induction HP as [|a rest Ha Hrest IH]; simpl.
  - apply post_ret. split; [constructor | reflexivity].
  - apply post_bind with (P := Q); [apply Hf; exact Ha|].
    intros b Hb. apply post_bind with (1 := IH).
    intros bs [Hbs Hlen]. apply post_ret. split.
    + constructor; assumption.
    + simpl. now rewrite Hlen.
Qed.

Lemma post_foldM {A S : Type} (f : A -> S -> Eff S) (I : S -> Prop) :
  (forall a s, I s -> post (f a s) I) ->
  forall xs s, I s -> post (foldM f xs s) I.
Proof.
  intros Hf xs. induction xs as [|a rest IH]; intros s Hs; simpl.
  - apply post_ret; exact Hs.
  - apply post_bind with (P := I); [apply Hf; exact Hs|].
    intros s' Hs'. apply IH; exact Hs'.
Qed.

Lemma update_length {A : Type} (i : nat) (a : A) (xs : list A) :
  List.length (update i a xs) = List.length xs.
Proof.
  revert i; induction xs as [|b rest IH]; intros [|i]; simpl; auto.
Qed.

Lemma update_Forall {A : Type} (P : A -> Prop) (i : nat) (a : A) (xs : list A) :
  P a -> Forall P xs -> Forall P (update i a xs).
Proof.
  intros Ha H. revert i; induction H as [|b rest Hb Hrest IH]; intros [|i]; simpl;
    constructor; auto.
Qed.

Lemma nth_error_Forall {A : Type} (P : A -> Prop) (xs : list A) (i : nat) (a : A) :
  Forall P xs -> nth_error xs i = Some a -> P a.
Proof.
  intros H Hn. apply nth_error_In in Hn. rewrite Forall_forall in H. auto.
Qed.

(* ===================================================================== *)
(** ** The per-agent invariant *)
(* ===================================================================== *)

(** Splits [wf q] into its four parts. *)
Ltac wf_split := unfold wf; split; [|split; [|split]].

Ltac break_if :=
  match goal with
  | |- context [if ?b then _ else _] => destruct b eqn:?
  end.

Lemma status_eqb_eq (a b : Status) : status_eqb a b = true <-> a = b.
Proof. destruct a, b; simpl; split; intros H; congruence. Qed.

Lemma isStatus_true (p : Person) (s : Status) : isStatus p s = true <-> status p = s.
Proof. apply status_eqb_eq. Qed.

Lemma isStatus_false (p : Person) (s : Status) : isStatus p s = false <-> status p <> s.
Proof.
  unfold isStatus. destruct (status p), s; simpl; split; intros H; congruence.
Qed.

Lemma zeroish_zero : zeroish 0%float.
Proof. left; reflexivity. Qed.

Lemma zeroish_negate (v : float) : zeroish v -> zeroish (v * (-1))%float.
Proof. intros [-> | ->]; [right | left]; reflexivity. Qed.

Lemma zeroish_eqb (v : float) : zeroish v -> (v =? 0)%float = true.
Proof. intros [-> | ->]; reflexivity. Qed.

Create HintDb sim.
#[local] Hint Resolve zeroish_zero zeroish_negate : sim.

Lemma wf_newPerson (cfg : Config) (w h : float) (i : nat) :
  post (newPerson cfg w h i) wf.
Proof.
  intros r. unfold newPerson, bind, ret, Math_random; simpl.
  destruct (Nat.ltb i (initialInfected cfg)); wf_split; simpl;
    try congruence; intros [? | ?]; congruence.
Qed.

Lemma wf_randomWalk (cfg : Config) (p : Person) :
  status p <> dead -> wf p ->
  post (randomWalk cfg (isStatus p quarantined) p)
       (fun q => wf q /\ status q = status p).
Proof.
  intros Hd Hwf r. unfold randomWalk.
  destruct (isStatus p quarantined) eqn:Hq; simpl.
  - split; [exact Hwf | reflexivity].
  - apply isStatus_false in Hq.
    assert (Hfree : forall q, status q = status p -> infectedTime q = infectedTime p ->
                              wf q /\ status q = status p).
    { intros q Hs Ht. split; [|exact Hs]. destruct Hwf as (H1 & H2 & H3 & H4).
      wf_split; rewrite ?Hs, ?Ht; auto.
      intros [? | ?]; congruence. }
    destruct (JS.gtb (mobilityRate cfg) 0); simpl; [|apply Hfree; reflexivity].
    unfold bind, ret, Math_random; simpl.
    repeat break_if; simpl;
      match goal with |- wf ?q /\ _ => apply (Hfree q); reflexivity end.
Qed.

Lemma wf_displace (cfg : Config) (w h : float) (p : Person) :
  wf p -> wf (displace cfg w h (isStatus p quarantined) p)
          /\ status (displace cfg w h (isStatus p quarantined) p) = status p.
Proof.
  intros (H1 & H2 & H3 & H4). unfold displace.
  destruct (isStatus p quarantined) eqn:Hq; simpl.
  - apply isStatus_true in Hq.
    destruct (H3 (or_introl Hq)) as [Hx Hy].
    repeat break_if; simpl; (split; [|reflexivity]);
      wf_split; simpl; auto; intros _; split; simpl; auto with sim.
  - apply isStatus_false in Hq.
    repeat break_if; simpl; (split; [|reflexivity]);
      wf_split; simpl; auto;
      (intros [Hc | Hc]; [congruence|]); destruct (H3 (or_intror Hc));
      split; simpl; auto with sim.
Qed.

Lemma incubate_skip (now : float) (p : Person) :
  status p <> exposed -> incubate now p = ret p.
Proof.
  intros H. unfold incubate. apply isStatus_false in H. now rewrite H.
Qed.

Lemma wf_isolate (cfg : Config) (now : float) (p : Person) :
  wf p -> wf (isolate cfg now p).
Proof.
  intros Hwf. unfold isolate. break_if; [|exact Hwf].
  destruct Hwf as (H1 & H2 & H3 & H4).
  apply andb_prop in Heqb as [Hs _]. apply isStatus_true in Hs.
  wf_split; simpl; try congruence.
  - intros _. split; simpl; auto with sim.
  - intros _. apply H4. congruence.
Qed.

Lemma wf_determineOutcome (cfg : Config) (now : float) (p : Person) (oc : bool) :
  infectedTime p <> None -> post (determineOutcome cfg now p oc) wf.
Proof.
  intros Ht r. unfold determineOutcome, bind, ret, Math_random; simpl.
  break_if; wf_split; simpl; try congruence.
  - intros _. split; simpl; auto with sim.
  - intros [? | ?]; congruence.
Qed.

Lemma wf_resolve (cfg : Config) (now : float) (p : Person) :
  wf p -> post (resolve cfg now p) wf.
Proof.
  intros Hwf. unfold resolve. break_if; [|apply post_ret; exact Hwf].
  apply wf_determineOutcome. destruct Hwf as (_ & _ & _ & H4). apply H4.
  apply andb_prop in Heqb as [Hs _].
  intros Hh. unfold isStatus in Hs. rewrite Hh in Hs. discriminate.
Qed.

Lemma wf_stepPerson (cfg : Config) (w h now : float) (p : Person) :
  wf p -> post (stepPerson cfg w h now p) wf.
Proof.
  intros Hwf. unfold stepPerson.
  destruct (isStatus p dead) eqn:Hd; [apply post_ret; exact Hwf|].
  apply isStatus_false in Hd.
  apply post_bind with (1 := wf_randomWalk cfg p Hd Hwf).
  intros q [Hq Hsq].
  replace (isStatus p quarantined) with (isStatus q quarantined)
    by (unfold isStatus; now rewrite Hsq).
  destruct (wf_displace cfg w h q Hq) as [Hw Hs]. cbv zeta.
  rewrite incubate_skip by (rewrite Hs; apply Hq).
  unfold bind, ret. apply wf_resolve, wf_isolate, Hw.
Qed.

Lemma wf_frame (p q : Person) :
  status q = status p -> vx q = vx p -> vy q = vy p ->
  infectedTime q = infectedTime p -> wf p -> wf q.
Proof.
  intros Hs Hx Hy Ht. unfold wf, at_rest. rewrite Hs, Hx, Hy, Ht. auto.
Qed.

Lemma wf_attemptInfection (cfg : Config) (now : float) (p1 p2 : Person)
    (log : list Infection) :
  wf p1 -> wf p2 ->
  post (attemptInfection cfg now p1 p2 log)
       (fun out => wf (fst (fst (fst out))) /\ wf (snd (fst (fst out)))).
Proof.
  intros H1 H2 r. unfold attemptInfection, bind, ret, Math_random.
  repeat (break_if; simpl); try (split; assumption); split;
    try (revert H1; apply wf_frame; reflexivity);
    wf_split; simpl; try congruence; intros [? | ?]; congruence.
Qed.

Lemma post_scanPair (host : Host) (cfg : Config) (ij : nat * nat) (s : Sim)
    (n : nat) :
  Forall wf (people s) /\ List.length (people s) = n ->
  post (scanPair host cfg ij s)
       (fun s' => Forall wf (people s') /\ List.length (people s') = n).
Proof.
  intros [Hwf Hlen]. unfold scanPair.
  destruct (nth_error (people s) (fst ij)) as [p1|] eqn:E1;
    [|apply post_ret; split; assumption].
  destruct (nth_error (people s) (snd ij)) as [p2|] eqn:E2;
    [|apply post_ret; split; assumption].
  break_if; [|apply post_ret; split; assumption].
  pose proof (nth_error_Forall _ _ _ _ Hwf E1) as W1.
  pose proof (nth_error_Forall _ _ _ _ Hwf E2) as W2.
  eapply post_bind.
  { apply wf_attemptInfection.
    - revert W1. apply wf_frame; reflexivity.
    - revert W2. apply wf_frame; reflexivity. }
  intros [[[q1 q2] log] b] [Wq1 Wq2]; simpl in *.
  eapply post_bind.
  { apply wf_attemptInfection; eassumption. }
  intros [[[q2' q1'] log'] b'] [Wq2' Wq1']; simpl in *.
  apply post_ret; simpl. split.
  - apply update_Forall; [assumption|]. apply update_Forall; assumption.
  - now rewrite !update_length.
Qed.

Lemma post_updateSimulation (host : Host) (cfg : Config) (s : Sim) :
  Forall wf (people s) ->
  post (updateSimulation host cfg s)
       (fun out => Forall wf (people (fst out))
                   /\ List.length (people (fst out)) = List.length (people s)).
Proof.
  intros Hwf. unfold updateSimulation.
  destruct (canvas cfg) as [[w h]|]; [|apply post_ret; simpl; auto].
  eapply post_bind.
  { apply post_mapM with (P := wf) (Q := wf); [|exact Hwf].
    intros a Ha. apply wf_stepPerson; exact Ha. }
  intros ps [Hps Hlen]; simpl in *.
  eapply post_bind.
  { apply post_foldM with
      (I := fun s' => Forall wf (people s') /\ List.length (people s') = List.length (people s)).
    - intros a s0 Hs0. apply post_scanPair; exact Hs0.
    - simpl. split; assumption. }
  intros s' Hs'. apply post_ret; simpl. exact Hs'.
Qed.

Lemma wf_updateSimulationParameters (cfg : Config) (s : Sim) :
  Forall wf (people s) -> Forall wf (people (updateSimulationParameters cfg s)).
Proof.
  intros H. unfold updateSimulationParameters. break_if; [exact H|]. simpl.
  rewrite Forall_map. eapply Forall_impl; [|exact H].
  intros p. apply wf_frame; reflexivity.
Qed.

Lemma length_updateSimulationParameters (cfg : Config) (s : Sim) :
  List.length (people (updateSimulationParameters cfg s)) = List.length (people s).
Proof.
  unfold updateSimulationParameters. break_if; [reflexivity|]. simpl.
  apply length_map.
Qed.

Lemma post_initializeSimulation (cfg : Config) :
  post (initializeSimulation cfg)
       (fun s => Forall wf (people s)
                 /\ List.length (people s) = populationSize cfg).
Proof.
  unfold initializeSimulation. eapply post_bind.
  { apply post_mapM with (P := fun _ => True) (Q := wf).
    - intros a _. apply wf_newPerson.
    - apply Forall_forall. auto. }
  intros ps [Hps Hlen]. apply post_ret; simpl. split; [exact Hps|].
  now rewrite Hlen, length_seq.
Qed.

(** [initializeSimulation] creates healthy and infected agents only, the
    infected ones being those with [id < initialInfected]. *)
Lemma initializeSimulation_statuses (cfg : Config) :
  post (initializeSimulation cfg)
       (fun s => Forall (fun p => status p = if Nat.ltb (id p) (initialInfected cfg)
                                             then infected else healthy)
                        (people s)).
Proof.
  unfold initializeSimulation. eapply post_bind.
  { apply post_mapM with (P := fun _ => True)
      (Q := fun p => status p = if Nat.ltb (id p) (initialInfected cfg)
                                then infected else healthy).
    - intros i _ r. reflexivity.
    - apply Forall_forall. auto. }
  intros ps [Hps _]. apply post_ret. exact Hps.
Qed.

(** Every reachable state has [n] agents, all satisfying [wf]. *)
Lemma reachable_invariant (host : Host) (n k : nat) (s : Sim) :
  reachable host n k s -> Forall wf (people s) /\ List.length (people s) = n.
Proof.
  induction 1 as [cfg r Hn Hk | cfg s Hr [IHw IHl] Hn Hk | cfg s r Hr [IHw IHl] Hn Hk].
  - rewrite <- Hn. apply post_initializeSimulation.
  - split; [apply wf_updateSimulationParameters; exact IHw|].
    now rewrite length_updateSimulationParameters.
  - destruct (post_updateSimulation host cfg s IHw r) as [Hw Hl].
    split; [exact Hw | congruence].
Qed.

(* ===================================================================== *)
(** ** Population counts *)
(* ===================================================================== *)

Lemma total_bump (c : Counts) (p : Person) : total (bump c p) = S (total c).
Proof.
  unfold bump, isStatus. destruct (status p); simpl; unfold total; simpl; lia.
Qed.

Lemma total_fold_bump (ps : list Person) (c : Counts) :
  total (fold_left bump ps c) = total c + List.length ps.
Proof.
  revert c; induction ps as [|p rest IH]; intros c; simpl; [lia|].
  rewrite IH, total_bump. lia.
Qed.

Lemma exposed_fold_bump (ps : list Person) (c : Counts) :
  Forall (fun p => status p <> exposed) ps ->
  n_exposed (fold_left bump ps c) = n_exposed c.
Proof.
  intros H; revert c; induction H as [|p rest Hp Hrest IH]; intros c; simpl;
    [reflexivity|].
  rewrite IH. unfold bump, isStatus. destruct (status p); simpl; congruence.
Qed.

Lemma asymptomatic_fold_bump (ps : list Person) (c : Counts) :
  Forall (fun p => status p <> asymptomatic) ps ->
  n_asymptomatic (fold_left bump ps c) = n_asymptomatic c.
Proof.
  intros H; revert c; induction H as [|p rest Hp Hrest IH]; intros c; simpl;
    [reflexivity|].
  rewrite IH. unfold bump, isStatus. destruct (status p); simpl; congruence.
Qed.

(** The first tick of the three-agent run is a reachable state. *)
Lemma chain_reachable :
  reachable plainHost 3 1
    (fst (fst (updateSimulation plainHost chainConfig (fst chainStart) (snd chainStart)))).
Proof.
  apply reach_step; [|reflexivity|reflexivity].
  apply reach_init; reflexivity.
Defined.

(** C5. Population conservation: in every state reachable from an
    initialization with population size [n] (so after initialization and
    after every call of [updateSimulation]), the seven per-status tallies
    healthy + exposed + infected + asymptomatic + quarantined + recovered +
    dead add up to [n]. *)
Theorem population_conserved (host : Host) (n k : nat) (s : Sim) :
  reachable host n k s -> total (tally (people s)) = n.
Proof.
  intros Hr. apply reachable_invariant in Hr as [_ Hlen].
  unfold tally. rewrite total_fold_bump. simpl. exact Hlen.
Qed.

Lemma population_conserved_witness :
  let s := fst (fst (updateSimulation plainHost chainConfig (fst chainStart)
                       (snd chainStart))) in
  reachable plainHost 3 1 s /\ total (tally (people s)) = 3.
Proof.
  split; [exact chain_reachable|].
  apply (population_conserved plainHost 3 1). exact chain_reachable.
Defined.

(** C9. In every state reachable from initialization no agent is Exposed or
    Infectious-Asymptomatic, so both tallies are zero, and the
    Exposed-to-infectious branch of the per-agent update ([incubate], the
    only place that assigns the asymptomatic status) does nothing on any
    agent of such a state. *)
Theorem never_exposed_nor_asymptomatic (host : Host) (n k : nat) (s : Sim) :
  reachable host n k s ->
  n_exposed (tally (people s)) = 0 /\
  n_asymptomatic (tally (people s)) = 0 /\
  Forall (fun p => status p <> exposed /\ status p <> asymptomatic
                   /\ forall now, incubate now p = ret p) (people s).
Proof.
  intros Hr. apply reachable_invariant in Hr as [Hwf _].
  assert (He : Forall (fun p => status p <> exposed) (people s))
    by (eapply Forall_impl; [|exact Hwf]; intros p Hp; apply Hp).
  assert (Ha : Forall (fun p => status p <> asymptomatic) (people s))
    by (eapply Forall_impl; [|exact Hwf]; intros p Hp; apply Hp).
  unfold tally. rewrite exposed_fold_bump, asymptomatic_fold_bump by assumption.
  repeat split; try reflexivity.
  eapply Forall_impl; [|exact Hwf].
  intros p (H1 & H2 & _). repeat split; try assumption.
  intros now. apply incubate_skip. exact H1.
Qed.

Lemma never_exposed_nor_asymptomatic_witness :
  let s := fst (fst (updateSimulation plainHost chainConfig (fst chainStart)
                       (snd chainStart))) in
  reachable plainHost 3 1 s /\
  n_exposed (tally (people s)) = 0 /\
  n_asymptomatic (tally (people s)) = 0.
Proof.
  split; [exact chain_reachable|].
  destruct (never_exposed_nor_asymptomatic plainHost 3 1 _ chain_reachable)
    as (He & Ha & _).
  split; [exact He | exact Ha].
Defined.

(* ===================================================================== *)
(** ** Transmission *)
(* ===================================================================== *)

(** What a successful attempt writes. *)
Lemma attemptInfection_success (cfg : Config) (now : float) (p1 p2 : Person)
    (log : list Infection) (r : Rng) :
  snd (fst (attemptInfection cfg now p1 p2 log r)) = true ->
  let out := fst (attemptInfection cfg now p1 p2 log r) in
  let source := fst (fst (fst out)) in
  let target := snd (fst (fst out)) in
  status target = infected /\
  exposedTime target = Some now /\
  infectedTime target = Some now /\
  infectedBy target = Some (id p1) /\
  infectionsSpread source = S (infectionsSpread p1) /\
  snd (fst out) = log ++ [{| from := id p1; to := id p2; at_time := now |}].
Proof.
  unfold attemptInfection, bind, ret, Math_random.
  repeat (break_if; simpl); intros H; try discriminate H.
  all: repeat split; reflexivity.
Qed.

(** C6. A transmission attempt changes something only if the source is
    infected or asymptomatic, the target is healthy and neither is
    quarantined.  Under these preconditions exactly one draw [u] is made and
    it decides the attempt: with
    [effectiveRate = infectionRate * maskFactor * asymptomaticFactor],
    [maskFactor] 0.5 under masks and 1 otherwise, [asymptomaticFactor] 0.5
    for an asymptomatic source and 1 otherwise, the draw [u < effectiveRate]
    makes the call return [true] and write the transmission (the target's
    status, times and infector, the source's count, the event appended to
    the log), which is a state other than the one it was given; any other
    draw makes it return [false] and change nothing.  When the preconditions
    fail nothing changes and no draw is made. *)
Theorem attemptInfection_contract (cfg : Config) (now : float) (p1 p2 : Person)
    (log : list Infection) (r : Rng) :
  let pre := (status p1 = infected \/ status p1 = asymptomatic)
             /\ status p2 = healthy
             /\ status p1 <> quarantined /\ status p2 <> quarantined in
  let maskFactor := if maskEnabled cfg then 0.5%float else 1%float in
  let asymptomaticFactor :=
    match status p1 with asymptomatic => 0.5%float | _ => 1%float end in
  let effectiveRate :=
    (infectionRate cfg * maskFactor * asymptomaticFactor)%float in
  let u := draws r (cursor r) in
  let out := attemptInfection cfg now p1 p2 log r in
  let succeeded := snd (fst out) in
  let transmitted :=
    (set_infectionsSpread (S (infectionsSpread p1)) p1,
     set_infectedBy (Some (id p1))
       (set_infectedTime (Some now)
          (set_status infected
             (set_exposedTime (Some now) (set_status exposed p2)))),
     log ++ [{| from := id p1; to := id p2; at_time := now |}]) in
  (fst (fst out) <> (p1, p2, log) -> pre) /\
  (pre ->
     cursor (snd out) = S (cursor r) /\
     (succeeded = true <-> (u <? effectiveRate)%float = true) /\
     (succeeded = false -> fst (fst out) = (p1, p2, log)) /\
     ((u <? effectiveRate)%float = true ->
        succeeded = true /\ fst (fst out) = transmitted) /\
     ((u <? effectiveRate)%float = false ->
        succeeded = false /\ fst (fst out) = (p1, p2, log)) /\
     transmitted <> (p1, p2, log) /\
     status (snd (fst transmitted)) = infected /\
     List.length (snd transmitted) = S (List.length log)) /\
  (~ pre -> out = ((p1, p2, log, false), r)).
Proof.
  cbv zeta.
  assert (Hchanged :
    (set_infectionsSpread (S (infectionsSpread p1)) p1,
     set_infectedBy (Some (id p1))
       (set_infectedTime (Some now)
          (set_status infected
             (set_exposedTime (Some now) (set_status exposed p2)))),
     log ++ [{| from := id p1; to := id p2; at_time := now |}])
    <> (p1, p2, log)).
  { intros H. apply (f_equal (fun t => List.length (snd t))) in H.
    cbn [snd] in H. rewrite length_app in H. cbn [List.length] in H. lia. }
  assert (Hlen :
    List.length (log ++ [{| from := id p1; to := id p2; at_time := now |}])
    = S (List.length log)).
  { rewrite length_app. cbn [List.length]. lia. }
  unfold attemptInfection, isStatus, bind, ret, Math_random.
  destruct (status p1) eqn:E1; destruct (status p2) eqn:E2; simpl.
  all: try (split; [intros H; exfalso; apply H; reflexivity|];
            split; [intros (Hs & Ht & Hq1 & Hq2);
                    first [ congruence | destruct Hs; congruence ]
                   | intros _; reflexivity]).
  all: split; [intros _; repeat split; auto; congruence|];
       (split; [|intros H; exfalso; apply H; repeat split; auto; congruence]);
       intros _; break_if; simpl;
       (split; [reflexivity|]); (split; [tauto|]);
       (split; [congruence|]);
       (split; [intros ?; split; (reflexivity || congruence)|]);
       (split; [intros ?; split; (reflexivity || congruence)|]);
       (split; [exact Hchanged|]);
       (split; [reflexivity | exact Hlen]).
Qed.

Lemma attemptInfection_failure (cfg : Config) (now : float) (p1 p2 : Person)
    (log : list Infection) (r : Rng) :
  snd (fst (attemptInfection cfg now p1 p2 log r)) = false ->
  fst (fst (attemptInfection cfg now p1 p2 log r)) = (p1, p2, log).
Proof.
  unfold attemptInfection, bind, ret, Math_random.
  repeat (break_if; simpl); intros H; try discriminate H; reflexivity.
Qed.

(** C1, evaluated on the code: agent 0 (infected) meets agent 1 (healthy) of
    the three-agent start state at clock 16 and the draw 0 succeeds.  The
    attempt records [exposedTime], [infectedBy], the source's count and the
    event, but leaves the target's status at [infected], not [exposed]. *)
Theorem successful_attempt_leaves_target_infected :
  let source := nth 0 (people (fst chainStart)) (mkPerson 0 0 0 0 0 healthy None adult None 0 false 0 0 0 None None 0) in
  let target := nth 1 (people (fst chainStart)) source in
  let out := fst (attemptInfection chainConfig 16 source target []
                    (mkRng (fun _ => 0%float) 0)) in
  status source = infected /\ status target = healthy /\
  snd out = true /\
  status (snd (fst (fst out))) = infected /\
  status (snd (fst (fst out))) <> exposed /\
  exposedTime (snd (fst (fst out))) = Some 16%float /\
  infectedBy (snd (fst (fst out))) = Some 0 /\
  infectionsSpread (fst (fst (fst out))) = 1 /\
  snd (fst out) = [{| from := 0; to := 1; at_time := 16 |}].
Proof.
  vm_compute. repeat split; try reflexivity. discriminate.
Qed.

(* ===================================================================== *)
(** ** Outcome *)
(* ===================================================================== *)

Lemma mortalityRate_base (g : AgeGroup) : mortalityRate g false = baseMortality g.
Proof. destruct g; reflexivity. Qed.

(** C8. When the recovery check fires for an agent (it is infected,
    quarantined or asymptomatic and its infectious time exceeds
    [personalRecovery]), [updateSimulation] calls [determineOutcome] without
    the over-capacity flag, so one draw [u] is compared with the base
    mortality of the agent's age group (0.2 child, 0.05 adult, 0.2 senior,
    never multiplied by 1.5): if [u] is below it the agent is dead with zero
    velocity, otherwise it is recovered with
    [immunityEndTime = now + immunityDuration]. *)
Theorem outcome_uses_base_mortality (cfg : Config) (now : float) (p : Person)
    (r : Rng) :
  status p = infected \/ status p = quarantined \/ status p = asymptomatic ->
  JS.gtb (now - JS.toNumber (infectedTime p)) (personalRecovery p) = true ->
  let base := match ageGroup p with
              | child => 0.2%float | adult => 0.05%float | senior => 0.2%float
              end in
  let u := draws r (cursor r) in
  let q := fst (resolve cfg now p r) in
  resolve cfg now p r = determineOutcome cfg now p false r /\
  mortalityRate (ageGroup p) false = base /\
  ((u <? base)%float = true ->
     status q = dead /\ vx q = 0%float /\ vy q = 0%float) /\
  ((u <? base)%float = false ->
     status q = recovered /\
     immunityEndTime q = Some (now + immunityDuration cfg)%float).
Proof.
  intros Hs Hfire. cbv zeta.
  assert (Hres : resolve cfg now p r = determineOutcome cfg now p false r).
  { unfold resolve, isStatus. rewrite Hfire.
    destruct Hs as [-> | [-> | ->]]; reflexivity. }
  assert (Hrate : mortalityRate (ageGroup p) false
                  = match ageGroup p with
                    | child => 0.2%float | adult => 0.05%float | senior => 0.2%float
                    end)
    by (destruct (ageGroup p); reflexivity).
  rewrite Hres. split; [reflexivity|]. split; [exact Hrate|].
  unfold determineOutcome, bind, ret, Math_random; simpl. rewrite Hrate.
  split; intros Hu; rewrite Hu; simpl; repeat split; reflexivity.
Qed.

Lemma outcome_uses_base_mortality_witness :
  let p := mkPerson 0 350 250 0 0 quarantined (Some 0%float) senior None 2000 false 10
             5000 5000 None None 2 in
  let r := mkRng (fun _ => 0.1%float) 0 in
  let q := fst (resolve defaults 5008 p r) in
  status q = dead /\ vx q = 0%float /\ vy q = 0%float.
Proof.
  apply (outcome_uses_base_mortality defaults 5008
           (mkPerson 0 350 250 0 0 quarantined (Some 0%float) senior None 2000 false 10
              5000 5000 None None 2)
           (mkRng (fun _ => 0.1%float) 0)).
  - right; left; reflexivity.
  - reflexivity.
  - reflexivity.
Defined.

(* ===================================================================== *)
(** ** Hosts agree on fixed values *)
(* ===================================================================== *)

Lemma scanPair_on_fixed (host : Host) (cfg : Config) (ij : nat * nat) (s : Sim) :
  ecma_zero_cases host -> pairOnFixed ij s ->
  scanPair host cfg ij s = scanPair plainHost cfg ij s.
Proof.
  intros (Ha & Hc & Hs). unfold pairOnFixed, scanPair.
  destruct (nth_error (people s) (fst ij)) as [p1|]; [|reflexivity].
  destruct (nth_error (people s) (snd ij)) as [p2|]; [|reflexivity].
  intros [[Hdx Hdy] | Hfar].
  - rewrite Hdx, Hdy, Ha, Hc, Hs. reflexivity.
  - cbv zeta in Hfar. rewrite Hfar. reflexivity.
Qed.

Lemma scan_on_fixed (host : Host) (cfg : Config) (ps : list (nat * nat)) :
  ecma_zero_cases host ->
  forall s r, scanOnFixed cfg ps s r ->
  foldM (scanPair host cfg) ps s r = foldM (scanPair plainHost cfg) ps s r.
Proof.
  intros Hh. induction ps as [|ij rest IH]; intros s r Hfix; simpl; [reflexivity|].
  destruct Hfix as [Hpair Hrest].
  rewrite !bind_run, (scanPair_on_fixed host cfg ij s Hh Hpair).
  apply IH. exact Hrest.
Qed.

(** On a tick whose scan is on fixed values, the resulting state is the one
    computed with [plainHost]. *)
Lemma tick_on_fixed (host : Host) (cfg : Config) (s : Sim) (r : Rng) :
  ecma_zero_cases host -> tickOnFixed cfg s r ->
  fst (fst (updateSimulation host cfg s r))
  = fst (fst (updateSimulation plainHost cfg s r)).
Proof.
  intros Hh. unfold tickOnFixed, updateSimulation.
  destruct (canvas cfg) as [[w h]|]; [|reflexivity].
  cbv zeta. intros Hfix. rewrite !bind_run.
  rewrite (scan_on_fixed host cfg _ Hh _ _ Hfix). reflexivity.
Qed.

Ltac on_fixed :=
  vm_compute;
  repeat match goal with
         | |- _ /\ _ => split
         | |- True => exact I
         | |- _ \/ _ => first [ left; split; reflexivity | right; reflexivity ]
         end.

(* ===================================================================== *)
(** ** Chained transmission within one tick *)
(* ===================================================================== *)

Lemma chainDraws_unit_interval (n : nat) :
  ((0 <=? chainDraws n)%float && (chainDraws n <? 1)%float)%bool = true.
Proof.
  unfold chainDraws, drawsOf.
  do 29 (destruct n as [|n]; [reflexivity|]). destruct n; reflexivity.
Qed.

Lemma plainHost_zero_cases : ecma_zero_cases plainHost.
Proof. repeat split; reflexivity. Defined.

(** C10. Same-tick chained transmission is possible: on every host with the
    values ECMA-262 fixes at zero there is a reachable state (the one just
    initialized, agents 1 and 2 healthy, empty log) and a sequence of draws
    in [0, 1) under which a single call of [updateSimulation] logs the
    infection of agent 1 by agent 0 and then, at the same clock value, the
    infection of agent 2 by agent 1. *)
Theorem same_tick_chain (host : Host) :
  ecma_zero_cases host ->
  exists (cfg : Config) (s : Sim) (r : Rng),
    reachable host 3 1 s /\
    (forall n, ((0 <=? draws r n)%float && (draws r n <? 1)%float)%bool = true) /\
    map status (people s) = [infected; healthy; healthy] /\
    infections s = [] /\
    let s' := fst (fst (updateSimulation host cfg s r)) in
    time s' = 16%float /\
    infections s' = [ {| from := 0; to := 1; at_time := 16 |};
                      {| from := 1; to := 2; at_time := 16 |} ] /\
    map status (people s') = [infected; infected; infected] /\
    map infectedBy (people s') = [None; Some 0; Some 1].
Proof.
  intros Hh.
  exists chainConfig, (fst chainStart), (snd chainStart).
  split; [apply reach_init; reflexivity|].
  split; [exact chainDraws_unit_interval|].
  split; [reflexivity|]. split; [reflexivity|].
  cbv zeta. rewrite (tick_on_fixed host chainConfig _ _ Hh) by on_fixed.
  vm_compute. repeat split; reflexivity.
Qed.

Lemma same_tick_chain_witness :
  ecma_zero_cases plainHost /\
  exists (cfg : Config) (s : Sim) (r : Rng),
    reachable plainHost 3 1 s /\
    (forall n, ((0 <=? draws r n)%float && (draws r n <? 1)%float)%bool = true) /\
    map status (people s) = [infected; healthy; healthy] /\
    infections s = [] /\
    let s' := fst (fst (updateSimulation plainHost cfg s r)) in
    time s' = 16%float /\
    infections s' = [ {| from := 0; to := 1; at_time := 16 |};
                      {| from := 1; to := 2; at_time := 16 |} ] /\
    map status (people s') = [infected; infected; infected] /\
    map infectedBy (people s') = [None; Some 0; Some 1].
Proof.
  split; [exact plainHost_zero_cases|].
  exact (same_tick_chain plainHost plainHost_zero_cases).
Defined.

(* ===================================================================== *)
(** ** Quarantined and dead agents *)
(* ===================================================================== *)

(** In a reachable state every quarantined or dead agent has zero velocity. *)
Lemma isolated_at_rest (host : Host) (n k : nat) (s : Sim) :
  reachable host n k s ->
  Forall (fun p => status p = quarantined \/ status p = dead ->
                   (vx p =? 0)%float = true /\ (vy p =? 0)%float = true)
         (people s).
Proof.
  intros Hr. apply reachable_invariant in Hr as [Hwf _].
  eapply Forall_impl; [|exact Hwf].
  intros p (_ & _ & H3 & _) Hs. destruct (H3 Hs) as [Hx Hy].
  split; apply zeroish_eqb; assumption.
Qed.

(** The per-agent update returns a dead agent as it is. *)
Lemma stepPerson_dead (cfg : Config) (w h now : float) (p : Person) (r : Rng) :
  status p = dead -> stepPerson cfg w h now p r = (p, r).
Proof.
  intros H. unfold stepPerson. apply isStatus_true in H. now rewrite H.
Qed.

(** The per-agent update does not displace a quarantined agent that lies
    within the margins, and makes no movement draw for it. *)
Lemma displace_quarantined (cfg : Config) (w h : float) (p : Person) :
  ((x p <? 5)%float || JS.gtb (x p) (w - 5)%float)%bool = false ->
  ((y p <? 5)%float || JS.gtb (y p) (h - 5)%float)%bool = false ->
  displace cfg w h true p = p /\ randomWalk cfg true p = ret p.
Proof.
  intros Hx Hy. unfold displace, randomWalk; simpl. rewrite Hx, Hy.
  split; reflexivity.
Qed.

(** The per-agent update leaves a quarantined agent that lies within the
    margins where it is, whether or not its episode ends in this tick. *)
Lemma stepPerson_quarantined_position (cfg : Config) (w h now : float)
    (p : Person) (r : Rng) :
  status p = quarantined ->
  ((x p <? 5)%float || JS.gtb (x p) (w - 5)%float)%bool = false ->
  ((y p <? 5)%float || JS.gtb (y p) (h - 5)%float)%bool = false ->
  x (fst (stepPerson cfg w h now p r)) = x p /\
  y (fst (stepPerson cfg w h now p r)) = y p.
Proof.
  intros Hs Hx Hy. unfold stepPerson, isStatus. rewrite Hs. simpl.
  destruct (displace_quarantined cfg w h p Hx Hy) as [Hd Hw].
  rewrite Hw. unfold bind, ret. rewrite Hd.
  rewrite incubate_skip by congruence.
  unfold ret, isolate, resolve, isStatus. rewrite Hs. simpl.
  break_if; [|split; reflexivity].
  unfold determineOutcome, bind, ret, Math_random; simpl.
  break_if; split; reflexivity.
Qed.

(** C2, evaluated on the code: a quarantined agent and a dead agent lie on
    the same spot (350, 250) at the start of a call of [updateSimulation].
    Both keep their status and their zero velocity, but the de-overlap step
    of the contact scan moves the quarantined agent to x = 355 and the dead
    agent to x = 345. *)
Theorem deoverlap_moves_quarantined_and_dead (host : Host) :
  ecma_zero_cases host ->
  let s' := fst (fst (updateSimulation host bumpConfig bumpStart noDraws)) in
  map status (people bumpStart) = [quarantined; dead] /\
  map x (people bumpStart) = [350; 350]%float /\
  map status (people s') = [quarantined; dead] /\
  map vx (people s') = [0; 0]%float /\ map vy (people s') = [0; 0]%float /\
  map x (people s') = [355; 345]%float /\
  map y (people s') = [250; 250]%float.
Proof.
  intros Hh. cbv zeta.
  rewrite (tick_on_fixed host bumpConfig _ _ Hh) by on_fixed.
  vm_compute. repeat split; reflexivity.
Qed.

Lemma deoverlap_moves_quarantined_and_dead_witness :
  ecma_zero_cases plainHost /\
  map x (people (fst (fst (updateSimulation plainHost bumpConfig bumpStart noDraws))))
  = [355; 345]%float.
Proof.
  split; [exact plainHost_zero_cases|].
  destruct (deoverlap_moves_quarantined_and_dead plainHost plainHost_zero_cases)
    as (_ & _ & _ & _ & _ & Hx & _).
  exact Hx.
Defined.

(* ===================================================================== *)
(** ** Parameter rescaling *)
(* ===================================================================== *)

(** C3, counterexample: one agent is created under the default recovery
    time 5000 with the draw 0.074545454545454734; the control is moved to
    11000 and [updateSimulationParameters] runs, giving
    [personalRecovery = 8192]; it runs again with the same 11000 (as it does
    when only the quarantine delay or the immunity duration changes) and
    [personalRecovery] becomes 8191.9999999999991. *)
Lemma second_rescale_changes_recovery :
  let s0 := fst (initializeSimulation roundingConfig (mkRng roundingDraws 0)) in
  let cfg := with_recoveryTime 11000 roundingConfig in
  let s1 := updateSimulationParameters cfg s0 in
  let s2 := updateSimulationParameters cfg s1 in
  map personalRecovery (people s1) = [8192%float] /\
  map personalRecovery (people s2) = [8191.9999999999991%float] /\
  map personalRecovery (people s2) <> map personalRecovery (people s1).
Proof.
  vm_compute. repeat split; try reflexivity.
  intros H.
  apply (f_equal (fun l => match l with
                           | [v] => (v =? 8192)%float
                           | _ => false
                           end)) in H.
  vm_compute in H. discriminate H.
Qed.

(** What a second call with the same settings does to the state, in the
    arithmetic of the code: only [personalRecovery] can change, and it is
    rescaled against the base the first call stored. *)
Lemma updateSimulationParameters_twice (cfg : Config) (s : Sim) :
  let s1 := updateSimulationParameters cfg s in
  let s2 := updateSimulationParameters cfg s1 in
  time s2 = time s1 /\ infections s2 = infections s1 /\
  map (set_personalRecovery 0) (people s2)
  = map (set_personalRecovery 0) (people s1) /\
  map personalRecovery (people s2)
  = map (fun p => rescale binary64 (recoveryTime cfg) (personalRecovery p)
                    (recoveryTime cfg)) (people s1).
Proof.
  cbv zeta. unfold updateSimulationParameters.
  destruct (Nat.eqb (List.length (people s)) 0) eqn:Hlen.
  - rewrite Hlen. apply Nat.eqb_eq, length_zero_iff_nil in Hlen. rewrite Hlen.
    repeat split; reflexivity.
  - cbn [people time infections]. rewrite length_map, Hlen.
    cbn [people time infections]. rewrite !map_map.
    repeat split; apply map_ext; intros p; reflexivity.
Qed.

(** Each agent of the state [updateSimulationParameters] returns is an agent
    of its argument, at the same index, with the two fields written. *)
Lemma updateSimulationParameters_nth (cfg : Config) (s : Sim) (i : nat)
    (q : Person) :
  nth_error (people (updateSimulationParameters cfg s)) i = Some q ->
  exists p, nth_error (people s) i = Some p /\
    q = set_oldRecoveryTime (recoveryTime cfg)
          (set_personalRecovery
             (rescale binary64 (recoveryTime cfg) (personalRecovery p)
                (oldRecoveryTime p)) p).
Proof.
  unfold updateSimulationParameters.
  destruct (Nat.eqb (List.length (people s)) 0) eqn:Hlen.
  - apply Nat.eqb_eq, length_zero_iff_nil in Hlen. rewrite Hlen.
    destruct i; discriminate.
  - cbn [people]. rewrite nth_error_map.
    destruct (nth_error (people s) i) as [p |]; [| discriminate].
    cbn [option_map]. intros H. exists p. split; [reflexivity |].
    congruence.
Qed.

(* --------------------------------------------------------------------- *)
(** *** Rounding to nearest, as [SpecFloat] computes it *)
(* --------------------------------------------------------------------- *)

Section Rounding.

Local Open Scope Z_scope.

(** [iter_pos] iterates as many times as its argument says. *)
Lemma iter_pos_nat {A} (f : A -> A) (p : positive) (x : A) :
  SpecFloat.iter_pos f p x = Nat.iter (Pos.to_nat p) f x.
Proof.
  revert x; induction p as [p IH | p IH |]; intro x; cbn [SpecFloat.iter_pos].
  - rewrite !IH, Pos2Nat.inj_xI.
    replace (S (2 * Pos.to_nat p))%nat with (Pos.to_nat p + (Pos.to_nat p + 1))%nat by lia.
    rewrite !Nat.iter_add. reflexivity.
  - rewrite !IH, Pos2Nat.inj_xO.
    replace (2 * Pos.to_nat p)%nat with (Pos.to_nat p + Pos.to_nat p)%nat by lia.
    rewrite Nat.iter_add. reflexivity.
  - reflexivity.
Qed.

(** One shift to the right doubles the unit and keeps the reading. *)
Lemma shr_1_located N D mrs :
  0 < D -> 0 <= shr_m mrs -> located N D mrs ->
  located N (2 * D) (shr_1 mrs) /\ 0 <= shr_m (shr_1 mrs).
Proof.
  destruct mrs as [m r s]; unfold located; cbn [shr_m shr_r shr_s].
  intros HD Hm [Hb Hl].
  destruct m as [| [p | p |] |]; [ | | | | lia].
  - destruct r, s; cbn [shr_1 orb shr_m shr_r shr_s]; lia.
  - assert (E1 : Z.pos p~1 * D = 2 * (Z.pos p * D) + D) by (rewrite (Pos2Z.inj_xI p); ring).
    assert (E2 : (Z.pos p~1 + 1) * D = 2 * (Z.pos p * D) + 2 * D) by (rewrite (Pos2Z.inj_xI p); ring).
    assert (E3 : (2 * Z.pos p~1 + 1) * D = 4 * (Z.pos p * D) + 3 * D) by (rewrite (Pos2Z.inj_xI p); ring).
    rewrite ?E1, ?E2, ?E3 in *. clear E1 E2 E3.
    destruct r, s; cbn [shr_1 orb shr_m shr_r shr_s];
      replace (Z.pos p * (2 * D)) with (2 * (Z.pos p * D)) by ring;
      replace ((Z.pos p + 1) * (2 * D)) with (2 * (Z.pos p * D) + 2 * D) by ring;
      replace ((2 * Z.pos p + 1) * (2 * D)) with (4 * (Z.pos p * D) + 2 * D) by ring;
      generalize dependent (Z.pos p * D); intros; lia.
  - assert (E1 : Z.pos p~0 * D = 2 * (Z.pos p * D)) by (rewrite (Pos2Z.inj_xO p); ring).
    assert (E2 : (Z.pos p~0 + 1) * D = 2 * (Z.pos p * D) + D) by (rewrite (Pos2Z.inj_xO p); ring).
    assert (E3 : (2 * Z.pos p~0 + 1) * D = 4 * (Z.pos p * D) + D) by (rewrite (Pos2Z.inj_xO p); ring).
    rewrite ?E1, ?E2, ?E3 in *. clear E1 E2 E3.
    destruct r, s; cbn [shr_1 orb shr_m shr_r shr_s];
      replace (Z.pos p * (2 * D)) with (2 * (Z.pos p * D)) by ring;
      replace ((Z.pos p + 1) * (2 * D)) with (2 * (Z.pos p * D) + 2 * D) by ring;
      replace ((2 * Z.pos p + 1) * (2 * D)) with (4 * (Z.pos p * D) + 2 * D) by ring;
      generalize dependent (Z.pos p * D); intros; lia.
  - destruct r, s; cbn [shr_1 orb shr_m shr_r shr_s]; lia.
Qed.

Lemma iter_shr_1_located N D mrs (n : nat) :
  0 < D -> 0 <= shr_m mrs -> located N D mrs ->
  located N (2 ^ Z.of_nat n * D) (Nat.iter n shr_1 mrs)
  /\ 0 <= shr_m (Nat.iter n shr_1 mrs).
Proof.
  intros HD Hm Hl. induction n as [| n [IH1 IH2]].
  - cbn [Nat.iter nat_rect]. rewrite Z.pow_0_r, Z.mul_1_l. auto.
  - cbn [Nat.iter nat_rect].
    rewrite Nat2Z.inj_succ, Z.pow_succ_r by lia.
    rewrite <- Z.mul_assoc.
    apply shr_1_located; auto.
    assert (0 < 2 ^ Z.of_nat n) by (apply Z.pow_pos_nonneg; lia). nia.
Qed.

Lemma shr_located N D mrs e n :
  0 < D -> 0 <= shr_m mrs -> located N D mrs ->
  located N (2 ^ Z.max n 0 * D) (fst (shr mrs e n))
  /\ 0 <= shr_m (fst (shr mrs e n))
  /\ snd (shr mrs e n) = e + Z.max n 0.
Proof.
  intros HD Hm Hl. destruct n as [| p | p]; cbn [shr fst snd].
  - rewrite Z.max_id, Z.pow_0_r, Z.mul_1_l, Z.add_0_r. auto.
  - rewrite iter_pos_nat.
    replace (Z.max (Z.pos p) 0) with (Z.of_nat (Pos.to_nat p)) by lia.
    destruct (iter_shr_1_located N D mrs (Pos.to_nat p) HD Hm Hl) as [A B].
    repeat split; auto; try apply A. lia.
  - replace (Z.max (Z.neg p) 0) with 0 by lia.
    rewrite Z.pow_0_r, Z.mul_1_l, Z.add_0_r. auto.
Qed.

Lemma shr_m_of_loc m l : shr_m (shr_record_of_loc m l) = m.
Proof. destruct l as [| []]; reflexivity. Qed.

(** Rounding to nearest, ties to even, moves to an integer at most half a
    unit away. *)
Lemma round_located N D mrs :
  0 < D -> located N D mrs ->
  let m' := round_nearest_even (shr_m mrs) (loc_of_shr_record mrs) in
  (m' = shr_m mrs \/ m' = shr_m mrs + 1) /\ Z.abs (2 * (m' * D) - 2 * N) <= D.
Proof.
  destruct mrs as [m r s]; unfold located; cbn [shr_m shr_r shr_s].
  intros HD [Hb Hl].
  replace ((m + 1) * D) with (m * D + D) in Hb by ring.
  replace ((2 * m + 1) * D) with (2 * (m * D) + D) in Hl by ring.
  destruct r, s; cbn [loc_of_shr_record round_nearest_even];
    try destruct (Z.even m);
    replace ((m + 1) * D) with (m * D + D) by ring;
    generalize dependent (m * D); intros; lia.
Qed.

Lemma digits2_pos_size p : digits2_pos p = Pos.size p.
Proof. induction p; cbn; congruence. Qed.

(** [digits2_pos] is the bit length. *)
Lemma digits2_bounds p :
  2 ^ (Z.pos (digits2_pos p) - 1) <= Z.pos p < 2 ^ Z.pos (digits2_pos p).
Proof.
  rewrite digits2_pos_size. split.
  - pose proof (Pos.size_le p) as H.
    apply Pos2Z.pos_le_pos in H. rewrite Pos2Z.inj_pow, (Pos2Z.inj_xO p) in H.
    replace (Z.pos (Pos.size p)) with (Z.succ (Z.pos (Pos.size p) - 1)) in H by lia.
    rewrite Z.pow_succ_r in H by lia. lia.
  - pose proof (Pos.size_gt p) as H.
    apply Pos2Z.pos_lt_pos in H. rewrite Pos2Z.inj_pow in H. exact H.
Qed.

Lemma Zdigits2_bounds m : 0 <= m -> m < 2 ^ Zdigits2 m /\ 0 <= Zdigits2 m.
Proof.
  destruct m as [| p | p]; cbn [Zdigits2]; intros H; try lia.
  split; [apply digits2_bounds | lia].
Qed.

Lemma Zdigits2_small m : 0 <= m -> m < 2 ^ 53 -> Zdigits2 m <= 53.
Proof.
  destruct m as [| p | p]; cbn [Zdigits2]; intros H L; try lia.
  destruct (digits2_bounds p) as [A _].
  assert (2 ^ (Z.pos (digits2_pos p) - 1) < 2 ^ 53) as B by lia.
  apply Z.pow_lt_mono_r_iff in B; lia.
Qed.

Lemma fexp_unfold e : fexp prec emax e = Z.max (e - 53) (-1074).
Proof. reflexivity. Qed.

(** The rounding of [SpecFloat]: when it returns a finite number [m * 2^e]
    for the exact quantity [N / D * 2^ex], that number is at most half a unit
    in its last place away from the quantity. *)
Lemma binary_round_aux_finite N D sx mx ex lx s m e :
  0 < D -> 0 <= mx -> located N D (shr_record_of_loc mx lx) ->
  binary_round_aux prec emax sx mx ex lx = S754_finite s m e ->
  s = sx /\
  exists k, 0 <= k /\ e = ex + k /\
    Z.abs (2 * (Z.pos m * (2 ^ k * D)) - 2 * N) <= 2 ^ k * D.
Proof.
  intros HD Hmx Hl. unfold binary_round_aux, shr_fexp.
  set (n1 := fexp prec emax (Zdigits2 mx + ex) - ex).
  rewrite <- (shr_m_of_loc mx lx) in Hmx.
  destruct (shr_located N D _ ex n1 HD Hmx Hl) as (L1 & P1 & E1).
  rewrite (shr_m_of_loc mx lx) in Hmx.
  destruct (shr (shr_record_of_loc mx lx) ex n1) as [mrs1 e1].
  cbn [fst snd] in L1, P1, E1.
  set (k1 := Z.max n1 0) in *.
  assert (Hk1 : 0 <= k1) by lia.
  assert (Hp1 : 0 < 2 ^ k1) by (apply Z.pow_pos_nonneg; lia).
  assert (HD1 : 0 < 2 ^ k1 * D) by nia.
  destruct (round_located N (2 ^ k1 * D) mrs1 HD1 L1) as [Hm2 Hr].
  set (m2 := round_nearest_even (shr_m mrs1) (loc_of_shr_record mrs1)) in *.
  (* the shifted mantissa fits 53 bits *)
  assert (Hm1 : shr_m mrs1 < 2 ^ 53).
  { destruct (Zdigits2_bounds mx Hmx) as [Hd Hd0].
    assert (Hk : Zdigits2 mx - 53 <= k1).
    { unfold k1, n1. rewrite fexp_unfold. lia. }
    destruct L1 as [[La _] _].
    assert (Lb : N < (mx + 1) * D).
    { destruct Hl as [[_ Hb] _]. rewrite shr_m_of_loc in Hb. exact Hb. }
    assert (Lc : shr_m mrs1 * 2 ^ k1 < mx + 1) by nia.
    assert (Ld : 2 ^ Zdigits2 mx <= 2 ^ (k1 + 53))
      by (apply Z.pow_le_mono_r; lia).
    rewrite Z.pow_add_r in Ld by lia. nia. }
  assert (He1 : -1074 <= e1).
  { rewrite E1. unfold k1, n1. rewrite fexp_unfold. lia. }
  assert (Hm2' : 0 <= m2 <= 2 ^ 53) by lia.
  destruct (Z.eq_dec m2 (2 ^ 53)) as [Hc | Hc].
  - rewrite Hc.
    replace (fexp prec emax (Zdigits2 (2 ^ 53) + e1) - e1) with 1
      by (rewrite fexp_unfold; change (Zdigits2 (2 ^ 53)) with 54; lia).
    intro H. cbn -[Z.leb Z.sub] in H.
    destruct (e1 + 1 <=? emax - prec); [| discriminate].
    injection H as <- <- <-. split; [reflexivity |].
    exists (k1 + 1). split; [lia |]. split; [lia |].
    rewrite Z.pow_add_r by lia. rewrite Hc in Hr.
    replace (Z.pos 4503599627370496 * (2 ^ k1 * 2 ^ 1 * D))
      with (2 ^ 53 * (2 ^ k1 * D)) by (change (2 ^ 53) with (2 * 4503599627370496); ring).
    replace (2 ^ k1 * 2 ^ 1 * D) with (2 * (2 ^ k1 * D)) by ring.
    lia.
  - assert (Hn2 : fexp prec emax (Zdigits2 m2 + e1) - e1 <= 0).
    { rewrite fexp_unfold.
      pose proof (Zdigits2_small m2 (proj1 Hm2') ltac:(lia)). lia. }
    assert (Es : shr (shr_record_of_loc m2 loc_Exact) e1
                   (fexp prec emax (Zdigits2 m2 + e1) - e1)
                 = (shr_record_of_loc m2 loc_Exact, e1)).
    { destruct (fexp prec emax (Zdigits2 m2 + e1) - e1); try reflexivity; lia. }
    rewrite Es. cbn [shr_record_of_loc shr_m].
    destruct m2 as [| p | p]; try discriminate.
    destruct (e1 <=? emax - prec); intro H; [| discriminate].
    injection H as <- <- <-. split; [reflexivity |].
    exists k1. split; [lia |]. split; [lia |]. exact Hr.
Qed.

(** The reading the division hands to the rounding is that of its
    quotient and remainder. *)
Lemma new_location_located N D :
  0 < D -> 0 <= N ->
  located N D (shr_record_of_loc (fst (Z.div_eucl N D))
                 (new_location D (snd (Z.div_eucl N D)))).
Proof.
  intros HD HN.
  pose proof (Z_div_mod N D ltac:(lia)) as H.
  destruct (Z.div_eucl N D) as [q r]. destruct H as [E Hr]. cbn [fst snd].
  assert (EqD : q * D = D * q) by ring.
  assert (Eq1 : (q + 1) * D = D * q + D) by ring.
  assert (Eq2 : (2 * q + 1) * D = 2 * (D * q) + D) by ring.
  unfold new_location, new_location_even, new_location_odd.
  destruct (Z.even D) eqn:Ev.
  - destruct (Z.eqb_spec r 0) as [-> | Hnz].
    + unfold located; cbn [shr_record_of_loc shr_m shr_r shr_s].
      rewrite EqD, Eq1. lia.
    + destruct (Z.compare_spec (2 * r) D) as [Hc | Hc | Hc];
        unfold located; cbn [shr_record_of_loc shr_m shr_r shr_s];
        rewrite ?EqD, ?Eq1, ?Eq2; lia.
  - assert (Od : Z.odd D = true) by (rewrite <- Z.negb_even, Ev; reflexivity).
    apply Z.odd_spec in Od. destruct Od as [d Ed].
    destruct (Z.eqb_spec r 0) as [-> | Hnz].
    + unfold located; cbn [shr_record_of_loc shr_m shr_r shr_s].
      rewrite EqD, Eq1. lia.
    + destruct (Z.compare_spec (2 * r + 1) D) as [Hc | Hc | Hc];
        unfold located; cbn [shr_record_of_loc shr_m shr_r shr_s];
        rewrite ?EqD, ?Eq1, ?Eq2; lia.
Qed.

Lemma digits2_full p :
  2 ^ 52 <= Z.pos p < 2 ^ 53 -> Z.pos (digits2_pos p) = 53.
Proof.
  intros [Hl Hh]. destruct (digits2_bounds p) as [A B].
  assert (C : 2 ^ (Z.pos (digits2_pos p) - 1) < 2 ^ 53) by lia.
  apply Z.pow_lt_mono_r_iff in C; [| lia | lia].
  assert (E : 2 ^ 52 < 2 ^ Z.pos (digits2_pos p)) by lia.
  apply Z.pow_lt_mono_r_iff in E; lia.
Qed.

(** Rounding a quantity of at least 53 bits whose exponent is in range gives
    a normal number, one or two binades above the exponent it started
    from. *)
Lemma binary_round_aux_normal N D sx mx ex lx :
  0 < D -> located N D (shr_record_of_loc mx lx) ->
  2 ^ 52 <= mx ->
  -1074 <= Zdigits2 mx + ex - 53 -> Zdigits2 mx + ex <= 1023 ->
  exists m e,
    binary_round_aux prec emax sx mx ex lx = S754_finite sx m e
    /\ Z.pos (digits2_pos m) = 53
    /\ Zdigits2 mx + ex - 53 <= e <= Zdigits2 mx + ex - 52.
Proof.
  intros HD Hl Hbig Hlo Hhi.
  assert (Hmx : 0 <= mx) by lia.
  unfold binary_round_aux, shr_fexp.
  set (n1 := fexp prec emax (Zdigits2 mx + ex) - ex).
  rewrite <- (shr_m_of_loc mx lx) in Hmx.
  destruct (shr_located N D _ ex n1 HD Hmx Hl) as (L1 & P1 & E1).
  rewrite (shr_m_of_loc mx lx) in Hmx.
  destruct (shr (shr_record_of_loc mx lx) ex n1) as [mrs1 e1].
  cbn [fst snd] in L1, P1, E1.
  destruct (Zdigits2_bounds mx Hmx) as [Hd Hd0].
  assert (Hd53 : 53 <= Zdigits2 mx).
  { assert (2 ^ 52 < 2 ^ Zdigits2 mx) as B by lia.
    apply Z.pow_lt_mono_r_iff in B; lia. }
  assert (Hdl : 2 ^ (Zdigits2 mx - 1) <= mx).
  { destruct mx as [| p | p]; try lia. apply digits2_bounds. }
  assert (En1 : n1 = Zdigits2 mx - 53) by (unfold n1; rewrite fexp_unfold; lia).
  set (k1 := Z.max n1 0) in *.
  assert (Ek1 : k1 = Zdigits2 mx - 53) by lia.
  assert (Hk1 : 0 <= k1) by lia.
  assert (Hp1 : 0 < 2 ^ k1) by (apply Z.pow_pos_nonneg; lia).
  assert (HD1 : 0 < 2 ^ k1 * D) by nia.
  destruct (round_located N (2 ^ k1 * D) mrs1 HD1 L1) as [Hm2 Hr].
  set (m2 := round_nearest_even (shr_m mrs1) (loc_of_shr_record mrs1)) in *.
  assert (Epow : 2 ^ Zdigits2 mx = 2 ^ 53 * 2 ^ k1).
  { rewrite <- Z.pow_add_r by lia. f_equal. lia. }
  assert (Epow' : 2 ^ (Zdigits2 mx - 1) = 2 ^ 52 * 2 ^ k1).
  { rewrite <- Z.pow_add_r by lia. f_equal. lia. }
  assert (Lb : mx * D <= N < (mx + 1) * D).
  { destruct Hl as [Hb _]. rewrite shr_m_of_loc in Hb. exact Hb. }
  assert (Hm1 : 2 ^ 52 <= shr_m mrs1 < 2 ^ 53).
  { destruct L1 as [[La La'] _]. split.
    - assert (mx < (shr_m mrs1 + 1) * 2 ^ k1) by nia.
      assert (2 ^ 52 * 2 ^ k1 < (shr_m mrs1 + 1) * 2 ^ k1) by lia.
      assert (2 ^ 52 < shr_m mrs1 + 1) by nia. lia.
    - assert (shr_m mrs1 * 2 ^ k1 < mx + 1) by nia.
      assert (shr_m mrs1 * 2 ^ k1 < 2 ^ 53 * 2 ^ k1) by lia.
      nia. }
  assert (Ee1 : e1 = Zdigits2 mx + ex - 53) by lia.
  destruct (Z.eq_dec m2 (2 ^ 53)) as [Hc | Hc].
  - rewrite Hc.
    replace (fexp prec emax (Zdigits2 (2 ^ 53) + e1) - e1) with 1
      by (rewrite fexp_unfold; change (Zdigits2 (2 ^ 53)) with 54; lia).
    cbn -[Z.leb Z.sub].
    destruct (Z.leb_spec (e1 + 1) (emax - prec)) as [_ | Hbad];
      [| change (emax - prec) with 971 in Hbad; lia].
    eexists; eexists. split; [reflexivity |]. split; [reflexivity | lia].
  - assert (Hn2 : fexp prec emax (Zdigits2 m2 + e1) - e1 <= 0).
    { rewrite fexp_unfold.
      pose proof (Zdigits2_small m2 ltac:(lia) ltac:(lia)). lia. }
    assert (Es : shr (shr_record_of_loc m2 loc_Exact) e1
                   (fexp prec emax (Zdigits2 m2 + e1) - e1)
                 = (shr_record_of_loc m2 loc_Exact, e1)).
    { destruct (fexp prec emax (Zdigits2 m2 + e1) - e1); try reflexivity; lia. }
    rewrite Es. cbn [shr_record_of_loc shr_m].
    assert (Hm2r : 2 ^ 52 <= m2 < 2 ^ 53) by lia.
    destruct m2 as [| p | p]; try lia.
    destruct (Z.leb_spec e1 (emax - prec)) as [_ | Hbad];
      [| change (emax - prec) with 971 in Hbad; lia].
    exists p, e1. split; [reflexivity |].
    split; [apply digits2_full; exact Hm2r | lia].
Qed.

Lemma Zdigits2_range (p : positive) (lo hi : Z) :
  0 <= lo -> 2 ^ lo <= Z.pos p < 2 ^ hi -> lo + 1 <= Z.pos (digits2_pos p) <= hi.
Proof.
  intros Hlo [Hl Hh]. destruct (digits2_bounds p) as [A B].
  assert (C : 2 ^ (Z.pos (digits2_pos p) - 1) < 2 ^ hi) by lia.
  assert (0 <= hi).
  { destruct (Z.le_gt_cases 0 hi) as [|Hn]; [assumption |].
    rewrite (Z.pow_neg_r 2 hi Hn) in Hh. lia. }
  apply Z.pow_lt_mono_r_iff in C; [| lia | lia].
  assert (E : 2 ^ lo < 2 ^ Z.pos (digits2_pos p)) by lia.
  apply Z.pow_lt_mono_r_iff in E; lia.
Qed.

Lemma full_significand (m : positive) :
  Z.pos (digits2_pos m) = 53 -> 2 ^ 52 <= Z.pos m < 2 ^ 53.
Proof.
  intros H. pose proof (digits2_bounds m) as B. rewrite H in B.
  change (53 - 1) with 52 in B. exact B.
Qed.

(** The product of two normal numbers is normal when the exponents leave
    room. *)
Lemma SFmul_normal ma ea mb eb :
  Z.pos (digits2_pos ma) = 53 -> Z.pos (digits2_pos mb) = 53 ->
  -1126 <= ea + eb <= 917 ->
  exists m e,
    SFmul prec emax (S754_finite false ma ea) (S754_finite false mb eb)
    = S754_finite false m e
    /\ Z.pos (digits2_pos m) = 53 /\ ea + eb + 52 <= e <= ea + eb + 54.
Proof.
  intros Ha Hb He. cbn [SFmul xorb].
  apply full_significand in Ha. apply full_significand in Hb.
  assert (Hprod : 2 ^ 104 <= Z.pos (ma * mb) < 2 ^ 106).
  { rewrite Pos2Z.inj_mul.
    change (2 ^ 104) with (2 ^ 52 * 2 ^ 52).
    change (2 ^ 106) with (2 ^ 53 * 2 ^ 53). nia. }
  pose proof (Zdigits2_range (ma * mb) 104 106 ltac:(lia) Hprod) as Hd.
  destruct (binary_round_aux_normal (Z.pos (ma * mb)) 1 false
              (Z.pos (ma * mb)) (ea + eb) loc_Exact) as (m & e & E & Hm & Hr).
  - lia.
  - unfold located; cbn [shr_record_of_loc shr_m shr_r shr_s]; lia.
  - change (2 ^ 52) with 4503599627370496.
    change (2 ^ 104) with 20282409603651670423947251286016 in Hprod. lia.
  - cbn [Zdigits2]. lia.
  - cbn [Zdigits2]. lia.
  - exists m, e. split; [exact E |]. split; [exact Hm |].
    cbn [Zdigits2] in Hr. lia.
Qed.

(** The quotient of two normal numbers is normal when the exponents leave
    room. *)
Lemma SFdiv_normal ma ea mb eb :
  Z.pos (digits2_pos ma) = 53 -> Z.pos (digits2_pos mb) = 53 ->
  -1021 <= ea - eb <= 1022 ->
  exists m e,
    SFdiv prec emax (S754_finite false ma ea) (S754_finite false mb eb)
    = S754_finite false m e
    /\ Z.pos (digits2_pos m) = 53 /\ ea - eb - 53 <= e <= ea - eb - 51.
Proof.
  intros Ha Hb He. cbn [SFdiv xorb]. unfold SFdiv_core_binary.
  cbn [Zdigits2]. rewrite Ha, Hb.
  assert (Ee : Z.min (fexp prec emax (53 + ea - (53 + eb))) (ea - eb)
               = ea - eb - 53) by (rewrite fexp_unfold; lia).
  rewrite Ee.
  replace (ea - eb - (ea - eb - 53)) with 53 by lia.
  apply full_significand in Ha. apply full_significand in Hb.
  set (m' := Z.shiftl (Z.pos ma) 53).
  assert (Em : m' = Z.pos ma * 2 ^ 53)
    by (unfold m'; rewrite Z.shiftl_mul_pow2 by lia; reflexivity).
  assert (Hm' : 2 ^ 52 * 2 ^ 53 <= m' < 2 ^ 53 * 2 ^ 53) by lia.
  pose proof (new_location_located m' (Z.pos mb) ltac:(lia) ltac:(lia)) as Hl.
  pose proof (Z_div_mod m' (Z.pos mb) ltac:(lia)) as Hq.
  destruct (Z.div_eucl m' (Z.pos mb)) as [q r]. cbn [fst snd] in Hl.
  destruct Hq as [Eq Hr].
  assert (Hqr : 2 ^ 52 <= q < 2 ^ 54).
  { change (2 ^ 54) with (2 * 2 ^ 53). change (2 ^ 53) with (2 * 2 ^ 52) in *.
    set (t := 2 ^ 52) in *. assert (0 < t) by (unfold t; lia). split; nia. }
  assert (Hd : 53 <= Zdigits2 q <= 54).
  { destruct q as [| p | p]; try lia. cbn [Zdigits2].
    apply (Zdigits2_range p 52 54); lia. }
  destruct (binary_round_aux_normal m' (Z.pos mb) false q (ea - eb - 53)
              (new_location (Z.pos mb) r)) as (m & e & E & Hm & Hre);
    try lia; [exact Hl |].
  exists m, e. split; [exact E |]. split; [exact Hm | lia].
Qed.

End Rounding.

(* --------------------------------------------------------------------- *)
(** *** The error of one multiplication and of one division *)
(* --------------------------------------------------------------------- *)

Section RoundingError.

Local Open Scope R_scope.

Lemma IZR_pow2 k : (0 <= k)%Z -> IZR (2 ^ k) = powerRZ 2 k.
Proof.
  destruct k as [| p | p]; intro H; [simpl; lra | | lia].
  change (2 ^ Z.pos p)%Z with (Z.pow_pos 2 p). apply Zpower_pos_powerRZ.
Qed.

Lemma powerRZ_2_pos e : 0 < powerRZ 2 e.
Proof. apply powerRZ_lt; lra. Qed.

(** The integer bound of [binary_round_aux_finite], over the reals. *)
Lemma half_ulp (m : positive) (N D k e0 : Z) :
  (0 < D)%Z -> (0 <= k)%Z ->
  (Z.abs (2 * (Z.pos m * (2 ^ k * D)) - 2 * N) <= 2 ^ k * D)%Z ->
  Rabs (F2R m (e0 + k) - IZR N / IZR D * powerRZ 2 e0) <= powerRZ 2 (e0 + k) / 2.
Proof.
  intros HD Hk H. apply IZR_le in H.
  rewrite abs_IZR, minus_IZR, !mult_IZR, (IZR_pow2 k Hk) in H.
  unfold F2R. rewrite powerRZ_add by lra.
  pose proof (powerRZ_2_pos e0) as HB. pose proof (powerRZ_2_pos k) as HP.
  assert (Hd : 0 < IZR D) by (apply IZR_lt; exact HD).
  set (B := powerRZ 2 e0) in *. set (P := powerRZ 2 k) in *.
  set (d := IZR D) in *. set (n := IZR N) in *. set (M := IZR (Z.pos m)) in *.
  replace (M * (B * P) - n / d * B)
    with (B / (2 * d) * (2 * (M * (P * d)) - 2 * n)) by (field; lra).
  rewrite Rabs_mult, (Rabs_pos_eq (B / (2 * d))).
  - replace (B * P / 2) with (B / (2 * d) * (P * d)) by (field; lra).
    apply Rmult_le_compat_l; [| exact H].
    apply Rlt_le, Rdiv_lt_0_compat; lra.
  - apply Rlt_le, Rdiv_lt_0_compat; lra.
Qed.

(** A finite product of two positive finite numbers is at most half a unit
    in the last place away from the exact product; so is a quotient. *)
Lemma SFmul_finite mx ex my ey s m e :
  SFmul prec emax (S754_finite false mx ex) (S754_finite false my ey)
  = S754_finite s m e ->
  s = false /\ Rabs (F2R m e - F2R mx ex * F2R my ey) <= powerRZ 2 e / 2.
Proof.
  cbn [SFmul xorb]. intro H.
  apply (binary_round_aux_finite (Z.pos (mx * my)) 1) in H;
    [| lia | lia |
     unfold located; cbn [shr_record_of_loc shr_m shr_r shr_s]; lia].
  destruct H as (Hs & k & Hk & -> & Hb). split; [exact Hs |].
  pose proof (half_ulp m (Z.pos (mx * my)) 1 k (ex + ey) ltac:(lia) Hk Hb) as H.
  replace (F2R mx ex * F2R my ey)
    with (IZR (Z.pos (mx * my)) / 1 * powerRZ 2 (ex + ey)); [exact H |].
  unfold F2R. rewrite Pos2Z.inj_mul, mult_IZR, powerRZ_add by lra. field.
Qed.

Lemma SFdiv_finite mx ex my ey s m e :
  SFdiv prec emax (S754_finite false mx ex) (S754_finite false my ey)
  = S754_finite s m e ->
  s = false /\ Rabs (F2R m e - F2R mx ex / F2R my ey) <= powerRZ 2 e / 2.
Proof.
  cbn [SFdiv xorb]. unfold SFdiv_core_binary.
  set (e' := Z.min _ _).
  set (sh := (ex - ey - e')%Z).
  assert (Hsh : (0 <= sh)%Z) by (unfold sh, e'; lia).
  set (m' := match sh with Z.pos _ => Z.shiftl (Z.pos mx) sh | 0%Z => Z.pos mx | Z.neg _ => 0%Z end).
  assert (Em : m' = (Z.pos mx * 2 ^ sh)%Z).
  { unfold m'. destruct sh as [| p | p]; [ring | | lia].
    rewrite Z.shiftl_mul_pow2 by lia. reflexivity. }
  assert (Hm' : (0 < m')%Z).
  { rewrite Em. assert (0 < 2 ^ sh)%Z by (apply Z.pow_pos_nonneg; lia). nia. }
  pose proof (new_location_located m' (Z.pos my) ltac:(lia) ltac:(lia)) as Hl.
  pose proof (Z_div_mod m' (Z.pos my) ltac:(lia)) as Hq.
  destruct (Z.div_eucl m' (Z.pos my)) as [q r]. cbn [fst snd] in Hl.
  intro H.
  apply (binary_round_aux_finite m' (Z.pos my)) in H; [| lia | nia | exact Hl].
  destruct H as (Hs & k & Hk & -> & Hb). split; [exact Hs |].
  pose proof (half_ulp m m' (Z.pos my) k e' ltac:(lia) Hk Hb) as H.
  replace (F2R mx ex / F2R my ey)
    with (IZR m' / IZR (Z.pos my) * powerRZ 2 e'); [exact H |].
  unfold F2R. rewrite Em, mult_IZR, (IZR_pow2 sh Hsh).
  assert (Eex : powerRZ 2 ex = powerRZ 2 ey * (powerRZ 2 sh * powerRZ 2 e')).
  { rewrite <- !powerRZ_add by lra. f_equal. unfold sh. lia. }
  rewrite Eex.
  pose proof (powerRZ_2_pos ey). pose proof (powerRZ_2_pos sh).
  pose proof (powerRZ_2_pos e').
  assert (0 < IZR (Z.pos my)) by (apply IZR_lt; lia).
  field. lra.
Qed.

Lemma normal_inv f :
  normal f ->
  exists m e, Prim2SF f = S754_finite false m e /\ Z.pos (digits2_pos m) = 53%Z.
Proof.
  unfold normal. rewrite classify_spec. unfold SF64classify, SFclassify.
  destruct (Prim2SF f) as [[] | [] | | [] m e]; try discriminate.
  - destruct (Z.eqb_spec (Z.pos (digits2_pos m)) prec); discriminate.
  - destruct (Z.eqb_spec (Z.pos (digits2_pos m)) prec) as [E |]; [| discriminate].
    intros _. exists m, e. split; [reflexivity | exact E].
Qed.

Lemma F2R_pos m e : 0 < F2R m e.
Proof.
  unfold F2R. apply Rmult_lt_0_compat; [apply IZR_lt; lia | apply powerRZ_2_pos].
Qed.

(** Half a unit in the last place of a normal number is at most
    [unitRoundoff] times the number. *)
Lemma normal_half_ulp m e :
  Z.pos (digits2_pos m) = 53%Z -> powerRZ 2 e / 2 <= unitRoundoff * F2R m e.
Proof.
  intro Hd. destruct (digits2_bounds m) as [Hl _]. rewrite Hd in Hl.
  apply IZR_le in Hl. change (53 - 1)%Z with 52%Z in Hl.
  rewrite (IZR_pow2 52 ltac:(lia)) in Hl.
  unfold F2R, unitRoundoff. pose proof (powerRZ_2_pos e) as He.
  assert (E : powerRZ 2 (-53) * powerRZ 2 52 = / 2).
  { rewrite <- powerRZ_add by lra. simpl. lra. }
  pose proof (powerRZ_2_pos (-53)) as Hu.
  set (u := powerRZ 2 (-53)) in *. set (t := powerRZ 2 52) in *.
  set (M := IZR (Z.pos m)) in *. set (B := powerRZ 2 e) in *.
  assert (u * t * B <= u * M * B).
  { apply Rmult_le_compat_r; [lra |]. apply Rmult_le_compat_l; lra. }
  rewrite E in H. lra.
Qed.

(** The relative error of one multiplication and of one division of normal
    numbers with a normal result. *)
Lemma mul_error (a b : float) :
  normal a -> normal b -> normal (a * b) ->
  Rabs (valueOf (a * b) - valueOf a * valueOf b) <= unitRoundoff * valueOf (a * b).
Proof.
  intros Hx Hy Hz.
  destruct (normal_inv a Hx) as (mx & ex & Ex & _).
  destruct (normal_inv b Hy) as (my & ey & Ey & _).
  destruct (normal_inv _ Hz) as (mz & ez & Ez & Dz).
  unfold valueOf. rewrite Ez, Ex, Ey.
  rewrite mul_spec, Ex, Ey in Ez. apply SFmul_finite in Ez.
  destruct Ez as [_ Hb].
  eapply Rle_trans; [exact Hb | apply normal_half_ulp; exact Dz].
Qed.

Lemma div_error (a b : float) :
  normal a -> normal b -> normal (a / b) ->
  Rabs (valueOf (a / b) - valueOf a / valueOf b) <= unitRoundoff * valueOf (a / b).
Proof.
  intros Hx Hy Hz.
  destruct (normal_inv a Hx) as (mx & ex & Ex & _).
  destruct (normal_inv b Hy) as (my & ey & Ey & _).
  destruct (normal_inv _ Hz) as (mz & ez & Ez & Dz).
  unfold valueOf. rewrite Ez, Ex, Ey.
  rewrite div_spec, Ex, Ey in Ez. apply SFdiv_finite in Ez.
  destruct Ez as [_ Hb].
  eapply Rle_trans; [exact Hb | apply normal_half_ulp; exact Dz].
Qed.

Lemma normal_positive f : normal f -> 0 < valueOf f.
Proof.
  intro H. destruct (normal_inv f H) as (m & e & E & _).
  unfold valueOf. rewrite E. apply F2R_pos.
Qed.

Lemma unitRoundoff_pos : 0 < unitRoundoff.
Proof. apply powerRZ_2_pos. Qed.

Lemma Rabs_le_between (a b : R) : Rabs a <= b -> - b <= a <= b.
Proof. unfold Rabs. destruct (Rcase_abs a); lra. Qed.

(** Dividing by [rt] and multiplying by [rt] again: two roundings. *)
Lemma scale_back_error (rt w : float) :
  normal rt -> normal w -> normal (w / rt) -> normal (rt * (w / rt)) ->
  Rabs (valueOf (rt * (w / rt)) - valueOf w)
  <= (2 * unitRoundoff + unitRoundoff * unitRoundoff) * valueOf (rt * (w / rt)).
Proof.
  intros Hrt Hw Hq Hp.
  pose proof (div_error w rt Hw Hrt Hq) as Hd.
  pose proof (mul_error rt (w / rt) Hrt Hq Hp) as Hm.
  pose proof (normal_positive _ Hrt) as Prt.
  pose proof (normal_positive _ Hq) as Pq.
  pose proof (normal_positive _ Hp) as Pp.
  pose proof unitRoundoff_pos as Hu.
  set (u := unitRoundoff) in *.
  set (r := valueOf rt) in *. set (v := valueOf w) in *.
  set (q := valueOf (w / rt)) in *. set (p := valueOf (rt * (w / rt))) in *.
  assert (Hd' : Rabs (r * q - v) <= u * (r * q)).
  { replace (r * q - v) with (r * (q - v / r)) by (field; lra).
    rewrite Rabs_mult, (Rabs_pos_eq r) by lra.
    replace (u * (r * q)) with (r * (u * q)) by ring.
    apply Rmult_le_compat_l; lra. }
  apply Rabs_le_between in Hd'. apply Rabs_le_between in Hm. apply Rabs_le.
  assert (Hrq : r * q <= p + u * p) by lra.
  assert (Huu : u * (r * q) <= u * (p + u * p))
    by (apply Rmult_le_compat_l; lra).
  lra.
Qed.

Lemma normal_intro f m e :
  Prim2SF f = S754_finite false m e -> Z.pos (digits2_pos m) = 53%Z ->
  normal f.
Proof.
  intros E H. unfold normal. rewrite classify_spec, E.
  unfold SF64classify, SFclassify. rewrite H. reflexivity.
Qed.

(** A number between 2^-128 and 2^128 is normal; its exponent lies between
    those of the two bounds. *)
Lemma moderate_inv f :
  moderate f = true ->
  exists m e, Prim2SF f = S754_finite false m e
    /\ Z.pos (digits2_pos m) = 53%Z /\ (-180 <= e <= 76)%Z.
Proof.
  unfold moderate. rewrite andb_true_iff, !leb_spec. intros [Hlo Hhi].
  pose proof (Prim2SF_valid f) as Hv.
  change (Prim2SF 0x1p-128) with (S754_finite false 4503599627370496 (-180)) in Hlo.
  change (Prim2SF 0x1p+128) with (S754_finite false 4503599627370496 76) in Hhi.
  destruct (Prim2SF f) as [s | s | | s m e]; try discriminate.
  - destruct s; discriminate.
  - destruct s; [discriminate |].
    unfold SFleb, SFcompare in Hlo, Hhi.
    assert (Hl : (-180 <= e)%Z).
    { destruct (Z.compare_spec (-180) e); try lia; discriminate. }
    assert (Hh : (e <= 76)%Z).
    { destruct (Z.compare_spec e 76); try lia; discriminate. }
    exists m, e. split; [reflexivity |]. split; [| lia].
    cbn [valid_binary] in Hv. unfold bounded, canonical_mantissa in Hv.
    apply andb_true_iff in Hv. destruct Hv as [Hc _].
    apply Z.eqb_eq in Hc. rewrite fexp_unfold in Hc. lia.
Qed.

Lemma moderate_normal f : moderate f = true -> normal f.
Proof.
  intros H. destruct (moderate_inv f H) as (m & e & E & D & _).
  exact (normal_intro f m e E D).
Qed.

(** Division and multiplication of numbers in range, with the exponent of
    the result. *)
Lemma div_in_range (a b : float) ma ea mb eb :
  Prim2SF a = S754_finite false ma ea -> Z.pos (digits2_pos ma) = 53%Z ->
  Prim2SF b = S754_finite false mb eb -> Z.pos (digits2_pos mb) = 53%Z ->
  (-1021 <= ea - eb <= 1022)%Z ->
  exists m e, Prim2SF (a / b) = S754_finite false m e
    /\ Z.pos (digits2_pos m) = 53%Z /\ (ea - eb - 53 <= e <= ea - eb - 51)%Z.
Proof.
  intros Ea Da Eb Db He. rewrite div_spec, Ea, Eb.
  apply SFdiv_normal; assumption.
Qed.

Lemma mul_in_range (a b : float) ma ea mb eb :
  Prim2SF a = S754_finite false ma ea -> Z.pos (digits2_pos ma) = 53%Z ->
  Prim2SF b = S754_finite false mb eb -> Z.pos (digits2_pos mb) = 53%Z ->
  (-1126 <= ea + eb <= 917)%Z ->
  exists m e, Prim2SF (a * b) = S754_finite false m e
    /\ Z.pos (digits2_pos m) = 53%Z /\ (ea + eb + 52 <= e <= ea + eb + 54)%Z.
Proof.
  intros Ea Da Eb Db He. rewrite mul_spec, Ea, Eb.
  apply SFmul_normal; assumption.
Qed.

(** Between 2^-128 and 2^128 neither operation of the rescaling leaves the
    normal numbers. *)
Lemma moderate_scale_back (rt w : float) :
  moderate rt = true -> moderate w = true ->
  normal rt /\ normal w /\ normal (w / rt) /\ normal (rt * (w / rt)).
Proof.
  intros Hrt Hw.
  destruct (moderate_inv rt Hrt) as (mr & er & Er & Dr & Rr).
  destruct (moderate_inv w Hw) as (mw & ew & Ew & Dw & Rw).
  destruct (div_in_range w rt _ _ _ _ Ew Dw Er Dr ltac:(lia))
    as (mq & eq & Eq & Dq & Rq).
  destruct (mul_in_range rt (w / rt) _ _ _ _ Er Dr Eq Dq ltac:(lia))
    as (mp & ep & Ep & Dp & _).
  split; [exact (normal_intro _ _ _ Er Dr) |].
  split; [exact (normal_intro _ _ _ Ew Dw) |].
  split; [exact (normal_intro _ _ _ Eq Dq) | exact (normal_intro _ _ _ Ep Dp)].
Qed.

End RoundingError.

(** A normal number is truthy and above zero, so a stored base that is
    normal is the base the rescaling divides by. *)
Lemma normal_truthy (f : float) :
  normal f -> JS.truthy f = true /\ JS.gtb f 0 = true.
Proof.
  intros H. destruct (normal_inv f H) as (m & e & E & _).
  assert (Hgt : (0 <? f)%float = true).
  { rewrite ltb_spec, E. reflexivity. }
  unfold JS.truthy, JS.gtb. rewrite Hgt, orb_true_r. split; reflexivity.
Qed.

Lemma rescale_normal_base (rt v old : float) :
  normal old -> rescale binary64 rt v old = (rt * (v / old))%float.
Proof.
  intros H. destruct (normal_truthy old H) as [Ht Hg].
  unfold rescale. cbn [a_truthy a_positive a_mul a_div binary64].
  rewrite Ht, Hg. reflexivity.
Qed.

(** C3, amended. A second call of [updateSimulationParameters] with the same
    settings is idempotent up to rounding, in the binary64 arithmetic the
    code runs.  Take any agent [p1] of the state after the first call and
    the agent [p2] at the same index after the second call, under a normal
    recovery time.  The second call recomputes [personalRecovery] as
    [recoveryTime * (personalRecovery / recoveryTime)], each operation
    rounded.  When the value after the first call, the quotient and the
    value after the second call are normal numbers (no underflow, no
    overflow), the two values differ by at most [2^-52 + 2^-106] of the
    second, as real numbers; this is the case whenever the recovery time and
    the value after the first call lie between 2^-128 and 2^128.  Every
    other field of the agent, the number of agents, the clock and the log
    are the same after the second call as after the first. *)
Theorem rescale_idempotent_up_to_rounding
    (cfg : Config) (s : Sim) (i : nat) (p1 p2 : Person) :
  let s1 := updateSimulationParameters cfg s in
  let s2 := updateSimulationParameters cfg s1 in
  let within_rounding :=
    (Rabs (valueOf (personalRecovery p2) - valueOf (personalRecovery p1))
     <= (2 * unitRoundoff + unitRoundoff * unitRoundoff)
        * valueOf (personalRecovery p2))%R in
  nth_error (people s1) i = Some p1 ->
  nth_error (people s2) i = Some p2 ->
  normal (recoveryTime cfg) ->
  personalRecovery p2
  = (recoveryTime cfg * (personalRecovery p1 / recoveryTime cfg))%float /\
  (normal (personalRecovery p1) ->
   normal (personalRecovery p1 / recoveryTime cfg) ->
   normal (personalRecovery p2) ->
   within_rounding) /\
  (moderate (recoveryTime cfg) = true ->
   moderate (personalRecovery p1) = true ->
   within_rounding) /\
  set_personalRecovery 0 p2 = set_personalRecovery 0 p1 /\
  List.length (people s2) = List.length (people s1) /\
  time s2 = time s1 /\ infections s2 = infections s1.
Proof.
  cbv zeta. intros H1 H2 Hrt.
  destruct (updateSimulationParameters_nth cfg s i p1 H1) as (p0 & _ & E1).
  destruct (updateSimulationParameters_nth cfg _ i p2 H2) as (p1' & H1' & E2).
  rewrite H1 in H1'. assert (p1' = p1) by congruence. subst p1'.
  assert (Eold : oldRecoveryTime p1 = recoveryTime cfg)
    by (rewrite E1; reflexivity).
  rewrite Eold, (rescale_normal_base _ _ _ Hrt) in E2.
  assert (Epr : personalRecovery p2
                = (recoveryTime cfg * (personalRecovery p1 / recoveryTime cfg))%float)
    by (rewrite E2; reflexivity).
  split; [exact Epr |].
  split.
  { intros Hv Hq Hp. rewrite Epr in Hp |- *.
    apply scale_back_error; assumption. }
  split.
  { intros Mrt Mv.
    destruct (moderate_scale_back _ _ Mrt Mv) as (_ & Hv & Hq & Hp).
    rewrite Epr. apply scale_back_error; assumption. }
  split.
  { rewrite E2. unfold set_personalRecovery, set_oldRecoveryTime.
    cbn [id x y vx vy status infectedTime ageGroup exposedTime incubationPeriod
         asymptomaticFlag infectionRadius personalRecovery oldRecoveryTime
         immunityEndTime infectedBy infectionsSpread].
    rewrite Eold. reflexivity. }
  destruct (updateSimulationParameters_twice cfg s) as (Ht & Hi & Hm & _).
  split; [| split; [exact Ht | exact Hi]].
  apply (f_equal (@List.length Person)) in Hm. rewrite !length_map in Hm.
  exact Hm.
Qed.

Lemma rescale_idempotent_up_to_rounding_witness :
  let cfg := with_recoveryTime 11000 roundingConfig in
  let s1 := updateSimulationParameters cfg roundingStart in
  let s2 := updateSimulationParameters cfg s1 in
  let p1 := nth 0 (people s1) nobody in
  let p2 := nth 0 (people s2) nobody in
  nth_error (people s1) 0 = Some p1 /\
  nth_error (people s2) 0 = Some p2 /\
  normal (recoveryTime cfg) /\
  personalRecovery p1 = 8192%float /\
  personalRecovery p2 = 8191.9999999999991%float /\
  (Rabs (valueOf (personalRecovery p2) - valueOf (personalRecovery p1))
   <= (2 * unitRoundoff + unitRoundoff * unitRoundoff)
      * valueOf (personalRecovery p2))%R.
Proof.
  cbv zeta.
  set (cfg := with_recoveryTime 11000 roundingConfig).
  set (s1 := updateSimulationParameters cfg roundingStart).
  set (s2 := updateSimulationParameters cfg s1).
  assert (H1 : nth_error (people s1) 0 = Some (nth 0 (people s1) nobody))
    by (vm_compute; reflexivity).
  assert (H2 : nth_error (people s2) 0 = Some (nth 0 (people s2) nobody))
    by (vm_compute; reflexivity).
  assert (Hn : normal (recoveryTime cfg)) by reflexivity.
  split; [exact H1 |]. split; [exact H2 |]. split; [exact Hn |].
  split; [vm_compute; reflexivity |].
  split; [vm_compute; reflexivity |].
  destruct (rescale_idempotent_up_to_rounding cfg roundingStart 0
              (nth 0 (people s1) nobody) (nth 0 (people s2) nobody)
              H1 H2 Hn) as (_ & _ & Hb & _).
  apply Hb; vm_compute; reflexivity.
Defined.

(** C4, counterexample: a dead agent with [personalRecovery = 5000] has
    [personalRecovery = 3000] after [updateSimulationParameters] under a
    recovery time of 3000. *)
Lemma dead_agent_is_rescaled :
  let s' := updateSimulationParameters (with_recoveryTime 3000 roundingConfig)
              graveyard in
  map status (people graveyard) = [dead] /\
  map personalRecovery (people graveyard) = [5000%float] /\
  map personalRecovery (people s') = [3000%float] /\
  people s' <> people graveyard.
Proof.
  vm_compute. repeat split; try reflexivity.
  intros H.
  apply (f_equal (fun l => match l with
                           | [q] => (personalRecovery q =? 5000)%float
                           | _ => false
                           end)) in H.
  vm_compute in H. discriminate H.
Qed.

(** C4, amended. [updateSimulationParameters] keeps the number and order of
    agents and changes no field of any agent other than [personalRecovery]
    and [oldRecoveryTime]; in particular status, position and velocity are
    kept.  Dead agents are not exempt: every agent, whatever its status,
    gets the rescaled [personalRecovery] and the current [recoveryTime] as
    [oldRecoveryTime]. *)
Theorem updateSimulationParameters_frame (cfg : Config) (s : Sim) (i : nat)
    (p : Person) :
  nth_error (people s) i = Some p ->
  exists q,
    nth_error (people (updateSimulationParameters cfg s)) i = Some q /\
    status q = status p /\
    x q = x p /\ y q = y p /\ vx q = vx p /\ vy q = vy p /\
    q = set_oldRecoveryTime (recoveryTime cfg)
          (set_personalRecovery
             (rescale binary64 (recoveryTime cfg) (personalRecovery p)
                (oldRecoveryTime p)) p).
Proof.
  intros Hp. unfold updateSimulationParameters.
  destruct (Nat.eqb (List.length (people s)) 0) eqn:Hlen.
  - apply Nat.eqb_eq, length_zero_iff_nil in Hlen. rewrite Hlen in Hp.
    destruct i; discriminate Hp.
  - simpl. eexists. split.
    + rewrite nth_error_map, Hp. reflexivity.
    + repeat split; reflexivity.
Qed.

Lemma updateSimulationParameters_frame_witness :
  nth_error (people graveyard) 0
  = Some (mkPerson 0 350 250 0 0 dead (Some 0%float) senior None 2000 false 10
            5000 5000 None None 0) /\
  exists q,
    nth_error (people (updateSimulationParameters
                         (with_recoveryTime 3000 roundingConfig) graveyard)) 0
    = Some q /\
    status q = dead /\ personalRecovery q = 3000%float.
Proof.
  split; [reflexivity|].
  destruct (updateSimulationParameters_frame
              (with_recoveryTime 3000 roundingConfig) graveyard 0
              (mkPerson 0 350 250 0 0 dead (Some 0%float) senior None 2000 false 10
                 5000 5000 None None 0) eq_refl)
    as (q & Hq & Hs & _ & _ & _ & _ & Heq).
  exists q. split; [exact Hq|]. split; [exact Hs|].
  rewrite Heq. reflexivity.
Defined.

(* ===================================================================== *)
(** ** Reproduction numbers *)
(* ===================================================================== *)

Lemma fold_spread (group : list Person) (a : nat) :
  fold_left (fun sum p => sum + infectionsSpread p) group a
  = a + nat_sum infectionsSpread group.
Proof.
  revert a; induction group as [|p rest IH]; intros a; simpl; [lia|].
  rewrite IH. lia.
Qed.

Lemma meanSpread_mean (group : list Person) : meanSpread group = mean group.
Proof. unfold meanSpread, mean. now rewrite fold_spread. Qed.

Lemma reproduction_cases (host : Host) (group : list Person) :
  reproduction host group
  = match group with
    | [] => JS.Num 0
    | _ :: _ => JS.Str (JS.toFixed2 (Number_toString host) (mean group))
    end.
Proof.
  unfold reproduction. destruct group; simpl; [reflexivity|].
  now rewrite meanSpread_mean.
Qed.

Lemma concluded_has_time (p : Person) :
  wf p -> concluded p = true -> JS.notNull (infectedTime p) = true.
Proof.
  intros (_ & _ & _ & H4) Hc. unfold concluded in Hc.
  destruct (infectedTime p) eqn:Et; [reflexivity|]. exfalso. apply H4; [|reflexivity].
  apply orb_prop in Hc as [Hc | Hc]; apply isStatus_true in Hc; congruence.
Qed.

Lemma filter_agree {A : Type} (f g : A -> bool) (P : A -> Prop) (xs : list A) :
  Forall P xs -> (forall a, P a -> f a = g a) -> filter f xs = filter g xs.
Proof.
  intros H Hfg. induction H as [|a rest Ha Hrest IH]; simpl; [reflexivity|].
  now rewrite (Hfg a Ha), IH.
Qed.

(** C7, counterexample.  In the state just initialized nobody has recovered
    or died, yet [r0Value] and [rtValue] are the number 0, not absent.  For
    three concluded index cases with 1, 0 and 0 secondary infections both
    are the string "0.33", not the mean. *)
Lemma reproduction_numbers_as_coded :
  let ps := people (fst chainStart) in
  let st := statistics plainHost chainConfig ps in
  indexConcluded 1 ps = [] /\ allConcluded ps = [] /\
  r0Value st = JS.Num 0 /\ rtValue st = JS.Num 0 /\
  ~ JS.absent (r0Value st) /\ ~ JS.absent (rtValue st) /\
  let st' := statistics plainHost (with_population 3 3 defaults) closedCases in
  indexConcluded 3 closedCases = closedCases /\
  allConcluded closedCases = closedCases /\
  r0Value st' = JS.Str "0.33" /\ rtValue st' = JS.Str "0.33" /\
  r0Value st' <> JS.Num (mean closedCases) /\
  rtValue st' <> JS.Num (mean closedCases).
Proof.
  vm_compute. repeat split; try reflexivity; intros H; discriminate H.
Qed.

(** C7, amended.  In every reachable state, [r0Value] is computed over
    exactly the agents with [id < initialInfected] that are recovered or
    dead, and [rtValue] over all recovered or dead agents: each is the mean
    of [infectionsSpread] over its group formatted by [toFixed(2)] (a string
    with two decimals), and the number 0 when the group is empty. *)
Theorem reproduction_numbers (host : Host) (n k : nat) (cfg : Config) (s : Sim) :
  reachable host n k s -> initialInfected cfg = k ->
  let st := statistics host cfg (people s) in
  r0Value st
  = match indexConcluded k (people s) with
    | [] => JS.Num 0
    | g => JS.Str (JS.toFixed2 (Number_toString host) (mean g))
    end /\
  rtValue st
  = match allConcluded (people s) with
    | [] => JS.Num 0
    | g => JS.Str (JS.toFixed2 (Number_toString host) (mean g))
    end.
Proof.
  intros Hr Hk. apply reachable_invariant in Hr as [Hwf _]. simpl.
  rewrite !reproduction_cases.
  assert (H0 : initialInfections cfg (people s) = indexConcluded k (people s)).
  { unfold initialInfections, indexConcluded. rewrite Hk.
    apply filter_agree with (1 := Hwf). intros p Hp.
    destruct (concluded p) eqn:Hc; [|now rewrite !andb_false_r].
    rewrite (concluded_has_time p Hp Hc). now rewrite andb_true_r. }
  assert (Ht : completedInfections (people s) = allConcluded (people s)).
  { unfold completedInfections, allConcluded.
    apply filter_agree with (1 := Hwf). intros p Hp.
    destruct (concluded p) eqn:Hc; [|now rewrite andb_false_r].
    now rewrite (concluded_has_time p Hp Hc). }
  rewrite H0, Ht.
  split; [destruct (indexConcluded k (people s)) | destruct (allConcluded (people s))];
    reflexivity.
Qed.

Lemma reproduction_numbers_witness :
  let s := fst (fst (updateSimulation plainHost chainConfig (fst chainStart)
                       (snd chainStart))) in
  reachable plainHost 3 1 s /\ initialInfected chainConfig = 1 /\
  r0Value (statistics plainHost chainConfig (people s)) = JS.Num 0.
Proof.
  split; [exact chain_reachable|]. split; [reflexivity|].
  destruct (reproduction_numbers plainHost 3 1 chainConfig _ chain_reachable eq_refl)
    as [H0 _].
  rewrite H0. reflexivity.
Defined.

(* ===================================================================== *)
(** ** The order of the contact scan *)
(* ===================================================================== *)

Lemma in_pairs (n i j : nat) : In (i, j) (pairs n) <-> i < j /\ j < n.
Proof.
  unfold pairs. rewrite in_flat_map. split.
  - intros (a & Ha & Hin). apply in_map_iff in Hin as (b & Heq & Hb).
    injection Heq as -> ->. apply in_seq in Ha, Hb. lia.
  - intros [Hij Hjn]. exists i. split; [apply in_seq; lia|].
    apply in_map_iff. exists j. split; [reflexivity|]. apply in_seq. lia.
Qed.

Lemma NoDup_flat_map_disjoint {A B : Type} (f : A -> list B) (xs : list A) :
  NoDup xs -> (forall a, In a xs -> NoDup (f a)) ->
  (forall a b c, In a xs -> In b xs -> In c (f a) -> In c (f b) -> a = b) ->
  NoDup (flat_map f xs).
Proof.
  intros Hxs. induction Hxs as [|a rest Ha Hrest IH]; intros Hf Hdis; simpl.
  - constructor.
  - apply NoDup_app.
    + apply Hf. left; reflexivity.
    + apply IH.
      * intros b Hb. apply Hf. right; exact Hb.
      * intros b c e Hb Hc. apply Hdis; right; assumption.
    + intros c Hc Hin. apply in_flat_map in Hin as (b & Hb & Hcb).
      apply Ha. rewrite (Hdis a b c); auto; [left; reflexivity | right; exact Hb].
Qed.

Lemma NoDup_map_injective {A B : Type} (f : A -> B) (xs : list A) :
  (forall a b, f a = f b -> a = b) -> NoDup xs -> NoDup (map f xs).
Proof.
  intros Hinj H. induction H as [|a rest Ha Hrest IH]; simpl; constructor.
  - intros Hin. apply in_map_iff in Hin as (b & Hb & Hin).
    apply Hinj in Hb. subst b. contradiction.
  - exact IH.
Qed.

(** X1. The nested loops of the contact scan visit exactly the index pairs
    [(i, j)] with [i < j < n], each of them once: every unordered pair of
    agents is examined once per tick, with the lower index first. *)
Theorem pairs_each_once (n : nat) :
  (forall i j, In (i, j) (pairs n) <-> i < j /\ j < n) /\ NoDup (pairs n).
Proof.
  split; [intros i j; apply in_pairs|].
  unfold pairs. apply NoDup_flat_map_disjoint.
  - apply seq_NoDup.
  - intros i _. apply NoDup_map_injective; [|apply seq_NoDup].
    intros a b H. now injection H.
  - intros a b [i j] _ _ Ha Hb.
    apply in_map_iff in Ha as (x & Hx & _). apply in_map_iff in Hb as (z & Hz & _).
    congruence.
Qed.

(* ===================================================================== *)
(** ** Agents before and after a tick *)
(* ===================================================================== *)

Lemma mapM_Forall2 {A B : Type} (f : A -> Eff B) (R : A -> B -> Prop) :
  (forall a r, R a (fst (f a r))) ->
  forall xs r, Forall2 R xs (fst (mapM f xs r)).
Proof.
  intros Hf xs. induction xs as [|a rest IH]; intros r; simpl.
  - constructor.
  - rewrite bind_run, bind_run. simpl. constructor; [apply Hf | apply IH].
Qed.

Lemma Forall2_update {A B : Type} (R : A -> B -> Prop) (xs : list A)
    (ys : list B) (i : nat) (b' : B) :
  Forall2 R xs ys ->
  (forall a, nth_error xs i = Some a -> R a b') ->
  Forall2 R xs (update i b' ys).
Proof.
  intros H. revert i. induction H as [|a b xs ys Hab Hrest IH]; intros i Hi.
  - destruct i; constructor.
  - destruct i as [|i]; simpl.
    + constructor; [apply (Hi a); reflexivity | exact Hrest].
    + constructor; [exact Hab|]. apply IH. intros a0 Ha0.
      apply (Hi a0); assumption.
Qed.

Lemma Forall2_nth {A B : Type} (R : A -> B -> Prop) (xs : list A)
    (ys : list B) (i : nat) (a : A) (b : B) :
  Forall2 R xs ys -> nth_error xs i = Some a -> nth_error ys i = Some b -> R a b.
Proof.
  intros H. revert i. induction H as [|a0 b0 xs ys Hab Hrest IH]; intros i Ha Hb.
  - destruct i; discriminate Ha.
  - destruct i as [|i]; simpl in *.
    + congruence.
    + eapply IH; eassumption.
Qed.

Lemma Forall2_compose {A B C : Type} (R1 : A -> B -> Prop) (R2 : B -> C -> Prop)
    (R : A -> C -> Prop) (xs : list A) (ys : list B) (zs : list C) :
  (forall a b c, R1 a b -> R2 b c -> R a c) ->
  Forall2 R1 xs ys -> Forall2 R2 ys zs -> Forall2 R xs zs.
Proof.
  intros HR H1. revert zs. induction H1 as [|a b xs ys Hab Hrest IH]; intros zs H2.
  - inversion H2; constructor.
  - inversion H2 as [|b' c ys' zs' Hbc Hrest2]; subst.
    constructor; [eapply HR; eassumption | apply IH; assumption].
Qed.

Lemma Forall2_same {A : Type} (R : A -> A -> Prop) (xs : list A) :
  (forall a, R a a) -> Forall2 R xs xs.
Proof. intros HR. induction xs; constructor; auto. Qed.

Lemma sameIdentity_refl (p : Person) : sameIdentity p p.
Proof. repeat split. Qed.

Lemma sameIdentity_trans (p q t : Person) :
  sameIdentity p q -> sameIdentity q t -> sameIdentity p t.
Proof.
  intros (A1 & A2 & A3 & A4 & A5 & A6) (B1 & B2 & B3 & B4 & B5 & B6).
  repeat split; congruence.
Qed.

Lemma contacted_refl (p : Person) : contacted p p.
Proof.
  split; [apply sameIdentity_refl|]. repeat split; auto.
Qed.

Lemma contacted_trans (p q t : Person) :
  contacted p q -> contacted q t -> contacted p t.
Proof.
  intros (A1 & A2 & A3 & A4 & A5 & A6) (B1 & B2 & B3 & B4 & B5 & B6).
  split; [eapply sameIdentity_trans; eassumption|].
  split; [congruence|]. split; [congruence|].
  split.
  { destruct A4 as [A4 | [A4 A4']], B4 as [B4 | [B4 B4']].
    - left; congruence.
    - right; split; congruence.
    - right; split; congruence.
    - congruence. }
  split; [lia|].
  intros Hp. destruct (A6 Hp) as (C1 & C2 & C3).
  assert (Hq : status q <> healthy).
  { destruct A4 as [A4 | [A4 _]]; congruence. }
  destruct (B6 Hq) as (D1 & D2 & D3). repeat split; congruence.
Qed.

Lemma contacted_moved (p : Person) (a b : float) :
  contacted p (set_y b (set_x a p)).
Proof.
  split; [repeat split|]. repeat split; auto.
Qed.

Lemma attemptInfection_contacted (cfg : Config) (now : float) (p1 p2 : Person)
    (log : list Infection) (r : Rng) :
  let out := fst (attemptInfection cfg now p1 p2 log r) in
  contacted p1 (fst (fst (fst out))) /\ contacted p2 (snd (fst (fst out))).
Proof.
  cbv zeta. unfold attemptInfection, isStatus, bind, ret, Math_random.
  destruct (status p1) eqn:E1; destruct (status p2) eqn:E2; simpl;
    try (split; apply contacted_refl);
    (break_if; simpl; [|split; apply contacted_refl]);
    (split; (split; [repeat split|]); simpl; rewrite ?E1, ?E2;
     repeat split; auto; try lia; try congruence;
     try (right; split; reflexivity); intros H; congruence).
Qed.

Lemma scanPair_contacted (host : Host) (cfg : Config) (ij : nat * nat)
    (ps0 : list Person) (s : Sim) :
  Forall2 contacted ps0 (people s) ->
  post (scanPair host cfg ij s) (fun s' => Forall2 contacted ps0 (people s')).
Proof.
  intros H r. unfold scanPair.
  destruct (nth_error (people s) (fst ij)) as [p1|] eqn:E1; [|exact H].
  destruct (nth_error (people s) (snd ij)) as [p2|] eqn:E2; [|exact H].
  break_if; [|exact H].
  rewrite bind_run.
  match goal with
  | |- context [attemptInfection cfg (time s) ?a ?b ?l r] =>
      pose proof (attemptInfection_contacted cfg (time s) a b l r) as Hfirst;
      destruct (attemptInfection cfg (time s) a b l r) as [[[[q1 q2] log1] b1] r1]
  end.
  simpl in Hfirst. destruct Hfirst as [Hq1 Hq2]. simpl.
  rewrite bind_run.
  pose proof (attemptInfection_contacted cfg (time s) q2 q1 log1 r1) as Hsecond.
  destruct (attemptInfection cfg (time s) q2 q1 log1 r1) as [[[[t2 t1] log2] b2] r2].
  simpl in Hsecond. destruct Hsecond as [Ht2 Ht1]. simpl.
  apply Forall2_update; [apply Forall2_update; [exact H|]|].
  - intros a Ha. pose proof (Forall2_nth _ _ _ _ _ _ H Ha E1) as Hc.
    eapply contacted_trans; [exact Hc|].
    eapply contacted_trans; [apply contacted_moved|].
    eapply contacted_trans; eassumption.
  - intros a Ha. pose proof (Forall2_nth _ _ _ _ _ _ H Ha E2) as Hc.
    eapply contacted_trans; [exact Hc|].
    eapply contacted_trans; [apply contacted_moved|].
    eapply contacted_trans; eassumption.
Qed.

Lemma contactScan_contacted (host : Host) (cfg : Config) (s : Sim) :
  post (contactScan host cfg s) (fun s' => Forall2 contacted (people s) (people s')).
Proof.
  unfold contactScan.
  apply post_foldM with (I := fun s' => Forall2 contacted (people s) (people s')).
  - intros ij s0 H. apply scanPair_contacted. exact H.
  - apply Forall2_same, contacted_refl.
Qed.

Lemma ages_refl (a : Status) : ages a a = true.
Proof. destruct a; reflexivity. Qed.

Lemma ages_trans (a b c : Status) :
  ages a b = true -> ages b c = true -> ages a c = true.
Proof. destruct a, b, c; simpl; intros H1 H2; congruence. Qed.

Lemma aged_refl (p : Person) : aged p p.
Proof.
  split; [apply sameIdentity_refl|]. split; [apply ages_refl|]. auto.
Qed.

Lemma aged_trans (p q t : Person) : aged p q -> aged q t -> aged p t.
Proof.
  intros (A1 & A2 & A3 & A4) (B1 & B2 & B3 & B4).
  split; [eapply sameIdentity_trans; eassumption|].
  split; [eapply ages_trans; eassumption|]. split; congruence.
Qed.

Lemma aged_of_unplaced (p q : Person) : unplaced q = unplaced p -> aged p q.
Proof.
  intros H.
  pose proof (f_equal id H) as H1. pose proof (f_equal ageGroup H) as H2.
  pose proof (f_equal incubationPeriod H) as H3.
  pose proof (f_equal infectionRadius H) as H4.
  pose proof (f_equal personalRecovery H) as H5.
  pose proof (f_equal oldRecoveryTime H) as H6.
  pose proof (f_equal status H) as H7.
  pose proof (f_equal infectionsSpread H) as H8.
  pose proof (f_equal infectedBy H) as H9.
  simpl in *. split; [repeat split; assumption|].
  rewrite H7. split; [apply ages_refl|]. split; assumption.
Qed.

Lemma randomWalk_unplaced (cfg : Config) (b : bool) (p : Person) (r : Rng) :
  unplaced (fst (randomWalk cfg b p r)) = unplaced p.
Proof.
  unfold randomWalk, bind, ret, Math_random.
  repeat (break_if; simpl); reflexivity.
Qed.

Lemma displace_unplaced (cfg : Config) (w h : float) (b : bool) (p : Person) :
  unplaced (displace cfg w h b p) = unplaced p.
Proof.
  unfold displace. repeat (break_if; simpl); reflexivity.
Qed.

Lemma incubate_aged (now : float) (p : Person) (r : Rng) :
  aged p (fst (incubate now p r)).
Proof.
  unfold incubate, bind, ret, Math_random.
  break_if; simpl; [|apply aged_refl].
  apply andb_prop in Heqb as [Hs _]. apply isStatus_true in Hs.
  split; [repeat split|]. simpl. rewrite Hs.
  split; [break_if; reflexivity|]. split; reflexivity.
Qed.

Lemma isolate_aged (cfg : Config) (now : float) (p : Person) :
  aged p (isolate cfg now p).
Proof.
  unfold isolate. break_if; [|apply aged_refl].
  apply andb_prop in Heqb as [Hs _]. apply isStatus_true in Hs.
  split; [repeat split|]. simpl. rewrite Hs. repeat split.
Qed.

Lemma resolve_aged (cfg : Config) (now : float) (p : Person) (r : Rng) :
  aged p (fst (resolve cfg now p r)).
Proof.
  unfold resolve, determineOutcome, bind, ret, Math_random.
  break_if; simpl; [|apply aged_refl].
  apply andb_prop in Heqb as [Hs _].
  assert (Hst : status p = infected \/ status p = quarantined
                \/ status p = asymptomatic).
  { unfold isStatus in Hs. destruct (status p); simpl in Hs; try discriminate Hs; auto. }
  break_if; simpl; (split; [repeat split|]); simpl;
    (split; [destruct Hst as [-> | [-> | ->]]; reflexivity|]); split; reflexivity.
Qed.

Lemma stepPerson_aged (cfg : Config) (w h now : float) (p : Person) (r : Rng) :
  aged p (fst (stepPerson cfg w h now p r)).
Proof.
  unfold stepPerson. break_if; [apply aged_refl|].
  rewrite bind_run. cbv zeta. rewrite bind_run.
  eapply aged_trans; [apply aged_of_unplaced, randomWalk_unplaced|].
  eapply aged_trans; [apply aged_of_unplaced, displace_unplaced|].
  eapply aged_trans; [apply incubate_aged|].
  eapply aged_trans; [apply isolate_aged|].
  apply resolve_aged.
Qed.

Lemma agePhase_aged (cfg : Config) (w h : float) (s : Sim) (r : Rng) :
  let s1 := fst (agePhase cfg w h s r) in
  Forall2 aged (people s) (people s1) /\
  time s1 = (time s + 16 * speed cfg)%float /\
  infections s1 = infections s.
Proof.
  cbv zeta. unfold agePhase. rewrite bind_run. simpl.
  split; [|split; reflexivity].
  apply mapM_Forall2. intros a r0. apply stepPerson_aged.
Qed.

(** [updateSimulation] on a mounted canvas is the per-person phase followed
    by the contact scan. *)
Lemma updateSimulation_phases (host : Host) (cfg : Config) (s : Sim) (r : Rng)
    (w h : float) :
  canvas cfg = Some (w, h) ->
  fst (fst (updateSimulation host cfg s r))
  = fst (contactScan host cfg (fst (agePhase cfg w h s r))
           (snd (agePhase cfg w h s r))).
Proof.
  intros Hc. unfold updateSimulation, contactScan, agePhase. rewrite Hc.
  cbv zeta. rewrite !bind_run. reflexivity.
Qed.

Lemma updateSimulation_unmounted (host : Host) (cfg : Config) (s : Sim) (r : Rng) :
  canvas cfg = None -> updateSimulation host cfg s r = ((s, None), r).
Proof. intros Hc. unfold updateSimulation. now rewrite Hc. Qed.

Lemma mayBecome_refl (a : Status) : mayBecome a a = true.
Proof. destruct a; reflexivity. Qed.

Lemma aged_contacted_evolves (p q t : Person) :
  aged p q -> contacted q t -> evolves p t.
Proof.
  intros (A1 & A2 & A3 & A4) (B1 & _ & _ & B4 & B5 & B6).
  split; [eapply sameIdentity_trans; eassumption|].
  split.
  { destruct B4 as [B4 | [B4 B4']].
    - rewrite B4. unfold mayBecome. now rewrite A2.
    - rewrite B4'. rewrite B4 in A2. destruct (status p); try discriminate A2.
      reflexivity. }
  split; [lia|].
  intros Hp.
  assert (Hq : status q <> healthy).
  { intros E. rewrite E in A2. destruct (status p); simpl in A2; congruence. }
  destruct (B6 Hq) as (C1 & _). congruence.
Qed.

Lemma evolves_refl (p : Person) : evolves p p.
Proof.
  split; [apply sameIdentity_refl|]. split; [apply mayBecome_refl|]. auto.
Qed.

(** Every agent of the state before a call of [updateSimulation] evolves
    into the agent at the same index after it. *)
Lemma tick_evolves (host : Host) (cfg : Config) (s : Sim) (r : Rng) :
  Forall2 evolves (people s) (people (fst (fst (updateSimulation host cfg s r)))).
Proof.
  destruct (canvas cfg) as [[w h]|] eqn:Hc.
  - rewrite (updateSimulation_phases host cfg s r w h Hc).
    destruct (agePhase_aged cfg w h s r) as (Ha & _ & _).
    eapply Forall2_compose; [apply aged_contacted_evolves | exact Ha|].
    apply contactScan_contacted.
  - rewrite (updateSimulation_unmounted host cfg s r Hc). simpl.
    apply Forall2_same, evolves_refl.
Qed.

(** X2. The status machine of a tick.  Whatever the state, the settings and
    the draws, the agent at each index changes status within one call of
    [updateSimulation] only along: healthy to infected; exposed to any
    status but healthy; infected to quarantined, recovered or dead;
    asymptomatic to recovered or dead; quarantined to recovered or dead.
    In particular recovered and dead are final, nobody becomes healthy
    again, and an asymptomatic agent is never quarantined. *)
Theorem tick_status_machine (host : Host) (cfg : Config) (s : Sim) (r : Rng) :
  Forall2 (fun p q =>
             match status p with
             | healthy => status q = healthy \/ status q = infected
             | exposed => status q <> healthy
             | infected => status q = infected \/ status q = quarantined
                           \/ status q = recovered \/ status q = dead
             | asymptomatic => status q = asymptomatic
                               \/ status q = recovered \/ status q = dead
             | quarantined => status q = quarantined
                              \/ status q = recovered \/ status q = dead
             | recovered => status q = recovered
             | dead => status q = dead
             end)
          (people s) (people (fst (fst (updateSimulation host cfg s r)))).
Proof.
  eapply Forall2_impl; [|apply tick_evolves].
  intros p q (_ & Hm & _). unfold mayBecome in Hm.
  destruct (status p), (status q); simpl in Hm; try discriminate Hm;
    try reflexivity; try (intros E; discriminate E); tauto.
Qed.

(** X3. A call of [updateSimulation] keeps the number and the order of the
    agents and never writes an agent's [id], [ageGroup], [incubationPeriod],
    [infectionRadius], [personalRecovery] or [oldRecoveryTime]. *)
Theorem tick_keeps_identity (host : Host) (cfg : Config) (s : Sim) (r : Rng) :
  let s' := fst (fst (updateSimulation host cfg s r)) in
  List.length (people s') = List.length (people s) /\
  Forall2 (fun p q =>
             id q = id p /\ ageGroup q = ageGroup p /\
             incubationPeriod q = incubationPeriod p /\
             infectionRadius q = infectionRadius p /\
             personalRecovery q = personalRecovery p /\
             oldRecoveryTime q = oldRecoveryTime p)
          (people s) (people s').
Proof.
  cbv zeta. pose proof (tick_evolves host cfg s r) as H. split.
  - symmetry. eapply Forall2_length. exact H.
  - eapply Forall2_impl; [|exact H]. intros p q (Hi & _). exact Hi.
Qed.

(** X4. Within a call of [updateSimulation] no agent's [infectionsSpread]
    decreases, and the [infectedBy] of an agent that is not healthy at the
    start is not written: an agent's infector is recorded only at the
    moment it leaves the healthy status. *)
Theorem tick_counters (host : Host) (cfg : Config) (s : Sim) (r : Rng) :
  Forall2 (fun p q =>
             infectionsSpread p <= infectionsSpread q /\
             (status p <> healthy -> infectedBy q = infectedBy p))
          (people s) (people (fst (fst (updateSimulation host cfg s r)))).
Proof.
  eapply Forall2_impl; [|apply tick_evolves].
  intros p q (_ & _ & Hs & Hb). split; assumption.
Qed.

(** X5. The contact scan moves agents apart but never writes a velocity,
    and the only status change it makes is healthy to infected; an agent
    that is not healthy when the scan starts keeps its [infectedBy],
    [infectedTime] and [exposedTime]. *)
Theorem scan_only_infects (host : Host) (cfg : Config) (s : Sim) (r : Rng) :
  Forall2 (fun p q =>
             vx q = vx p /\ vy q = vy p /\
             (status q = status p \/ (status p = healthy /\ status q = infected)) /\
             (status p <> healthy ->
              infectedBy q = infectedBy p /\ infectedTime q = infectedTime p
              /\ exposedTime q = exposedTime p))
          (people s) (people (fst (contactScan host cfg s r))).
Proof.
  eapply Forall2_impl; [|apply contactScan_contacted].
  intros p q (_ & H1 & H2 & H3 & _ & H5). repeat split; try assumption; apply H5; assumption.
Qed.

(* ===================================================================== *)
(** ** The event log *)
(* ===================================================================== *)

Lemma post_foldM_in {A S : Type} (f : A -> S -> Eff S) (I : S -> Prop)
    (xs : list A) :
  (forall a s, In a xs -> I s -> post (f a s) I) ->
  forall s, I s -> post (foldM f xs s) I.
Proof.
  induction xs as [|a rest IH]; intros Hf s Hs; simpl.
  - apply post_ret; exact Hs.
  - apply post_bind with (P := I); [apply Hf; [left; reflexivity | exact Hs]|].
    intros s' Hs'. apply IH; [|exact Hs'].
    intros b s0 Hb. apply Hf. right; exact Hb.
Qed.

Lemma nat_sum_update (f : Person -> nat) (xs : list Person) (i : nat)
    (a b : Person) :
  nth_error xs i = Some a ->
  nat_sum f (update i b xs) + f a = nat_sum f xs + f b.
Proof.
  revert i. induction xs as [|c rest IH]; intros [|i] H; simpl in *;
    try discriminate H.
  - injection H as ->. lia.
  - specialize (IH i H). lia.
Qed.

Lemma nth_error_update_other {A : Type} (i j : nat) (a : A) (xs : list A) :
  i <> j -> nth_error (update i a xs) j = nth_error xs j.
Proof.
  revert i j. induction xs as [|c rest IH]; intros [|i] [|j] H; simpl; auto;
    try contradiction; try (apply IH; lia).
Qed.

(** The two ways a call of [attemptInfection] can end. *)
Lemma attemptInfection_cases (cfg : Config) (now : float) (p1 p2 : Person)
    (log : list Infection) (r : Rng) :
  let out := fst (attemptInfection cfg now p1 p2 log r) in
  let q1 := fst (fst (fst out)) in
  let q2 := snd (fst (fst out)) in
  (q1 = p1 /\ q2 = p2 /\ snd (fst out) = log) \/
  (snd (fst out) = log ++ [{| from := id p1; to := id p2; at_time := now |}] /\
   infectionsSpread q1 = S (infectionsSpread p1) /\
   infectionsSpread q2 = infectionsSpread p2 /\
   status q1 = status p1 /\ status p1 <> healthy /\
   status p2 = healthy /\ status q2 = infected /\
   id q1 = id p1 /\ id q2 = id p2).
Proof.
  cbv zeta. unfold attemptInfection, isStatus, bind, ret, Math_random.
  destruct (status p1) eqn:E1; destruct (status p2) eqn:E2; simpl;
    try (left; repeat split; reflexivity);
    (break_if; simpl; [right | left; repeat split; reflexivity]);
    rewrite ?E1, ?E2; repeat split; try reflexivity; intros H; discriminate H.
Qed.

(** What the body of the scan does for one pair. *)
Lemma scanPair_effect (host : Host) (cfg : Config) (ij : nat * nat) (s : Sim)
    (r : Rng) :
  let s' := fst (scanPair host cfg ij s r) in
  time s' = time s /\
  (exists new,
     infections s' = infections s ++ new /\ List.length new <= 1 /\
     Forall (fun e =>
               at_time e = time s /\
               exists p1 p2,
                 nth_error (people s) (fst ij) = Some p1 /\
                 nth_error (people s) (snd ij) = Some p2 /\
                 ((from e = id p1 /\ to e = id p2)
                  \/ (from e = id p2 /\ to e = id p1))) new) /\
  (fst ij <> snd ij ->
   nat_sum infectionsSpread (people s') + List.length (infections s)
   = nat_sum infectionsSpread (people s) + List.length (infections s')).
Proof.
  cbv zeta. unfold scanPair.
  assert (Hnone : time s = time s /\
            (exists new, infections s = infections s ++ new /\ List.length new <= 1 /\
               Forall (fun e =>
                 at_time e = time s /\
                 exists p1 p2,
                   nth_error (people s) (fst ij) = Some p1 /\
                   nth_error (people s) (snd ij) = Some p2 /\
                   ((from e = id p1 /\ to e = id p2)
                    \/ (from e = id p2 /\ to e = id p1))) new) /\
            (fst ij <> snd ij ->
             nat_sum infectionsSpread (people s) + List.length (infections s)
             = nat_sum infectionsSpread (people s) + List.length (infections s))).
  { split; [reflexivity|]. split; [|reflexivity].
    exists []. rewrite app_nil_r. repeat split; [simpl; lia | constructor]. }
  destruct (nth_error (people s) (fst ij)) as [p1|] eqn:E1; [|exact Hnone].
  destruct (nth_error (people s) (snd ij)) as [p2|] eqn:E2; [|exact Hnone].
  break_if; [|exact Hnone]. clear Hnone.
  rewrite bind_run.
  match goal with
  | |- context [attemptInfection cfg (time s) ?a ?b ?l r] =>
      set (m1 := a); set (m2 := b);
      pose proof (attemptInfection_cases cfg (time s) m1 m2 l r) as Hfirst;
      destruct (attemptInfection cfg (time s) m1 m2 l r) as [[[[q1 q2] log1] b1] r1]
  end.
  assert (Hm1 : infectionsSpread m1 = infectionsSpread p1 /\ id m1 = id p1
                /\ status m1 = status p1) by (repeat split).
  assert (Hm2 : infectionsSpread m2 = infectionsSpread p2 /\ id m2 = id p2
                /\ status m2 = status p2) by (repeat split).
  clearbody m1 m2. destruct Hm1 as (Hs1 & Hi1 & Ht1). destruct Hm2 as (Hs2 & Hi2 & Ht2).
  cbv zeta in Hfirst. simpl in Hfirst. simpl.
  rewrite bind_run.
  pose proof (attemptInfection_cases cfg (time s) q2 q1 log1 r1) as Hsecond.
  destruct (attemptInfection cfg (time s) q2 q1 log1 r1) as [[[[t2 t1] log2] b2] r2].
  cbv zeta in Hsecond. simpl in Hsecond. simpl.
  split; [reflexivity|].
  assert (Hsum : fst ij <> snd ij ->
            nat_sum infectionsSpread (update (snd ij) t2 (update (fst ij) t1 (people s)))
            + infectionsSpread p1 + infectionsSpread p2
            = nat_sum infectionsSpread (people s)
              + infectionsSpread t1 + infectionsSpread t2).
  { intros Hne.
    pose proof (nat_sum_update infectionsSpread (people s) (fst ij) p1 t1 E1) as Hu1.
    assert (E2' : nth_error (update (fst ij) t1 (people s)) (snd ij) = Some p2)
      by (rewrite nth_error_update_other; assumption).
    pose proof (nat_sum_update infectionsSpread _ (snd ij) p2 t2 E2') as Hu2.
    lia. }
  destruct Hfirst as [(-> & -> & ->) | (Hl1 & Hq1 & Hq2 & Hst1 & Hnh & Hh2 & Hinf2 & Hid1 & Hid2)].
  - destruct Hsecond as [(-> & -> & ->) | (Hl2 & Hr2 & Hr1 & _ & _ & _ & _ & Hjd2 & Hjd1)].
    + split.
      * exists []. rewrite app_nil_r. repeat split; [simpl; lia | constructor].
      * intros Hne. specialize (Hsum Hne). lia.
    + split.
      * exists [{| from := id m2; to := id m1; at_time := time s |}].
        split; [exact Hl2|]. split; [simpl; lia|].
        constructor; [|constructor]. simpl. split; [reflexivity|].
        exists p1, p2. repeat split. right. split; congruence.
      * intros Hne. specialize (Hsum Hne). rewrite Hl2, length_app. simpl. lia.
  - destruct Hsecond as [(-> & -> & ->) | (_ & _ & _ & _ & _ & Hbad & _)].
    + split.
      * exists [{| from := id m1; to := id m2; at_time := time s |}].
        split; [exact Hl1|]. split; [simpl; lia|].
        constructor; [|constructor]. simpl. split; [reflexivity|].
        exists p1, p2. repeat split. left. split; congruence.
      * intros Hne. specialize (Hsum Hne). rewrite Hl1, length_app. simpl. lia.
    + exfalso. rewrite Hst1 in Hbad. contradiction.
Qed.

(** X6. For one pair of the contact scan at most one of the two infection
    attempts succeeds: the body of the loop appends at most one event to the
    log, whatever the two agents and the draws. *)
Theorem pair_logs_at_most_one_event (host : Host) (cfg : Config)
    (ij : nat * nat) (s : Sim) (r : Rng) :
  exists new,
    infections (fst (scanPair host cfg ij s r)) = infections s ++ new /\
    List.length new <= 1.
Proof.
  destruct (scanPair_effect host cfg ij s r) as (_ & (new & Hl & Hlen & _) & _).
  exists new. split; assumption.
Qed.

Lemma nat_sum_Forall2 (f : Person -> nat) (ps qs : list Person) :
  Forall2 (fun p q => f q = f p) ps qs -> nat_sum f qs = nat_sum f ps.
Proof.
  induction 1 as [|p q ps qs Hpq Hrest IH]; simpl; [reflexivity|]. lia.
Qed.

Lemma map_id_Forall2 (ps qs : list Person) :
  Forall2 (fun p q => id q = id p) ps qs -> map id qs = map id ps.
Proof.
  induction 1 as [|p q ps qs Hpq Hrest IH]; simpl; [reflexivity|]. congruence.
Qed.

Lemma id_at_index (n : nat) (ps : list Person) (i : nat) (p : Person) :
  map id ps = seq 0 n -> nth_error ps i = Some p -> id p = i /\ i < n.
Proof.
  intros Hids Hp.
  pose proof (map_nth_error id i ps Hp) as Hm. rewrite Hids in Hm.
  assert (Hlt : i < n).
  { rewrite <- (length_seq n 0). apply nth_error_Some. congruence. }
  split; [|exact Hlt].
  apply (nth_error_nth _ _ 0) in Hm. rewrite seq_nth in Hm by exact Hlt.
  simpl in Hm. congruence.
Qed.

(** The scan as a whole: the clock stands still, the log grows by events
    stamped with the clock, and every new event is matched by one more
    secondary infection. *)
Lemma contactScan_log (host : Host) (cfg : Config) (s : Sim) (r : Rng) :
  let s' := fst (contactScan host cfg s r) in
  time s' = time s /\
  (exists new, infections s' = infections s ++ new
               /\ Forall (fun e => at_time e = time s) new) /\
  nat_sum infectionsSpread (people s') + List.length (infections s)
  = nat_sum infectionsSpread (people s) + List.length (infections s').
Proof.
  cbv zeta. unfold contactScan.
  apply (post_foldM_in (scanPair host cfg)
           (fun s0 => time s0 = time s /\
              (exists new, infections s0 = infections s ++ new
                           /\ Forall (fun e => at_time e = time s) new) /\
              nat_sum infectionsSpread (people s0) + List.length (infections s)
              = nat_sum infectionsSpread (people s) + List.length (infections s0))).
  - intros [i j] s0 Hin (Ht & (new & Hl & Hst) & Hbal) r0.
    apply in_pairs in Hin.
    destruct (scanPair_effect host cfg (i, j) s0 r0) as (Ht' & (add & Hl' & _ & Hadd) & Hb').
    simpl in Hb'. specialize (Hb' ltac:(lia)).
    split; [congruence|]. split.
    + exists (new ++ add). split; [rewrite Hl', Hl, app_assoc; reflexivity|].
      apply Forall_app. split; [exact Hst|].
      eapply Forall_impl; [|exact Hadd]. intros e (He & _). congruence.
    + lia.
  - split; [reflexivity|]. split; [|reflexivity].
    exists []. rewrite app_nil_r. split; [reflexivity | constructor].
Qed.

Lemma contactScan_valid (host : Host) (cfg : Config) (n : nat) (s : Sim) (r : Rng) :
  map id (people s) = seq 0 n ->
  Forall (validEvent n) (infections s) ->
  let s' := fst (contactScan host cfg s r) in
  map id (people s') = seq 0 n /\ Forall (validEvent n) (infections s').
Proof.
  intros Hids Hlog. cbv zeta. unfold contactScan.
  assert (Hlen : List.length (people s) = n).
  { rewrite <- (length_map id), Hids. apply length_seq. }
  rewrite Hlen.
  apply (post_foldM_in (scanPair host cfg)
           (fun s0 => map id (people s0) = seq 0 n
                      /\ Forall (validEvent n) (infections s0))).
  - intros [i j] s0 Hin (Hi0 & Hl0) r0. apply in_pairs in Hin.
    pose proof (scanPair_contacted host cfg (i, j) (people s0) s0
                  (Forall2_same _ _ contacted_refl) r0) as Hc.
    destruct (scanPair_effect host cfg (i, j) s0 r0) as (_ & (add & Hl' & _ & Hadd) & _).
    split.
    + rewrite <- Hi0. apply map_id_Forall2.
      eapply Forall2_impl; [|exact Hc]. intros p q (Hs & _). apply Hs.
    + rewrite Hl'. apply Forall_app. split; [exact Hl0|].
      eapply Forall_impl; [|exact Hadd].
      intros e (_ & p1 & p2 & E1 & E2 & He). simpl in E1, E2.
      destruct (id_at_index n _ _ _ Hi0 E1) as [Hp1 Hlt1].
      destruct (id_at_index n _ _ _ Hi0 E2) as [Hp2 Hlt2].
      unfold validEvent. destruct He as [[-> ->] | [-> ->]]; lia.
  - split; assumption.
Qed.

(** X7. The event log is append-only.  A call of [updateSimulation] keeps
    every earlier event and stamps every event it adds with the clock value
    of this tick, which is the old clock plus [16 * speed] on a mounted
    canvas and the old clock otherwise. *)
Theorem tick_log_append_only (host : Host) (cfg : Config) (s : Sim) (r : Rng) :
  let s' := fst (fst (updateSimulation host cfg s r)) in
  time s' = match canvas cfg with
            | Some _ => (time s + 16 * speed cfg)%float
            | None => time s
            end /\
  exists new,
    infections s' = infections s ++ new /\
    Forall (fun e => at_time e = time s') new.
Proof.
  cbv zeta. destruct (canvas cfg) as [[w h]|] eqn:Hc.
  - rewrite (updateSimulation_phases host cfg s r w h Hc).
    destruct (agePhase_aged cfg w h s r) as (_ & Ht & Hl).
    destruct (contactScan_log host cfg (fst (agePhase cfg w h s r))
                (snd (agePhase cfg w h s r))) as (Ht' & (new & Hl' & Hst) & _).
    split; [congruence|].
    exists new. split; [congruence|].
    eapply Forall_impl; [|exact Hst]. intros e He. congruence.
  - rewrite (updateSimulation_unmounted host cfg s r Hc). simpl.
    split; [reflexivity|]. exists []. rewrite app_nil_r.
    split; [reflexivity | constructor].
Qed.

(** One tick adds as many secondary infections as events. *)
Lemma tick_balance (host : Host) (cfg : Config) (s : Sim) (r : Rng) :
  let s' := fst (fst (updateSimulation host cfg s r)) in
  nat_sum infectionsSpread (people s') + List.length (infections s)
  = nat_sum infectionsSpread (people s) + List.length (infections s').
Proof.
  cbv zeta. destruct (canvas cfg) as [[w h]|] eqn:Hc.
  - rewrite (updateSimulation_phases host cfg s r w h Hc).
    destruct (agePhase_aged cfg w h s r) as (Ha & _ & Hl).
    destruct (contactScan_log host cfg (fst (agePhase cfg w h s r))
                (snd (agePhase cfg w h s r))) as (_ & _ & Hb).
    assert (Hsum : nat_sum infectionsSpread (people (fst (agePhase cfg w h s r)))
                   = nat_sum infectionsSpread (people s)).
    { apply nat_sum_Forall2. eapply Forall2_impl; [|exact Ha].
      intros p q (_ & _ & H & _). exact H. }
    rewrite Hl, Hsum in Hb. exact Hb.
  - rewrite (updateSimulation_unmounted host cfg s r Hc). reflexivity.
Qed.

Lemma initializeSimulation_fresh (cfg : Config) (r : Rng) :
  let s := fst (initializeSimulation cfg r) in
  map id (people s) = seq 0 (populationSize cfg) /\
  nat_sum infectionsSpread (people s) = 0 /\
  infections s = [] /\ time s = 0%float.
Proof.
  cbv zeta. unfold initializeSimulation. rewrite bind_run. simpl.
  set (f := newPerson cfg _ _).
  assert (H : Forall2 (fun i p => id p = i /\ infectionsSpread p = 0)
                (seq 0 (populationSize cfg))
                (fst (mapM f (seq 0 (populationSize cfg)) r))).
  { apply mapM_Forall2. intros i r0. split; reflexivity. }
  revert H. generalize (fst (mapM f (seq 0 (populationSize cfg)) r)).
  generalize (seq 0 (populationSize cfg)).
  intros idx ps H. repeat split.
  - induction H as [|i p idx ps [Hi _] Hrest IH]; simpl; [reflexivity|]. congruence.
  - induction H as [|i p idx ps [_ Hs] Hrest IH]; simpl; [reflexivity|]. lia.
Qed.

Lemma updateSimulationParameters_keeps (cfg : Config) (s : Sim) :
  let s' := updateSimulationParameters cfg s in
  map id (people s') = map id (people s) /\
  nat_sum infectionsSpread (people s') = nat_sum infectionsSpread (people s) /\
  infections s' = infections s /\ time s' = time s.
Proof.
  cbv zeta. unfold updateSimulationParameters.
  break_if; [repeat split|]. clear Heqb. simpl. repeat split.
  - rewrite map_map. apply map_ext. reflexivity.
  - induction (people s) as [|p ps IH]; simpl; [reflexivity|]. now rewrite IH.
Qed.

(** What holds of the identifiers and the log of every reachable state. *)
Lemma reachable_log_invariant (host : Host) (n k : nat) (s : Sim) :
  reachable host n k s ->
  map id (people s) = seq 0 n /\
  Forall (validEvent n) (infections s) /\
  nat_sum infectionsSpread (people s) = List.length (infections s).
Proof.
  induction 1 as [cfg r Hn Hk | cfg s Hr (IHi & IHl & IHs) Hn Hk
                 | cfg s r Hr (IHi & IHl & IHs) Hn Hk].
  - destruct (initializeSimulation_fresh cfg r) as (Hi & Hs & Hl & _).
    rewrite Hl, Hs, <- Hn. repeat split; [exact Hi | constructor].
  - destruct (updateSimulationParameters_keeps cfg s) as (Hi & Hs & Hl & _).
    rewrite Hi, Hs, Hl. repeat split; assumption.
  - split; [|split].
    + rewrite <- IHi. apply map_id_Forall2.
      eapply Forall2_impl; [|apply tick_evolves]. intros p q (Hs & _). apply Hs.
    + destruct (canvas cfg) as [[w h]|] eqn:Hc.
      * rewrite (updateSimulation_phases host cfg s r w h Hc).
        destruct (agePhase_aged cfg w h s r) as (Ha & _ & Hl).
        apply contactScan_valid.
        -- rewrite <- IHi. apply map_id_Forall2.
           eapply Forall2_impl; [|exact Ha]. intros p q (Hs & _). apply Hs.
        -- rewrite Hl. exact IHl.
      * rewrite (updateSimulation_unmounted host cfg s r Hc). exact IHl.
    + pose proof (tick_balance host cfg s r) as Hb. cbv zeta in Hb. lia.
Qed.

(** X8. In every reachable state the agent stored at index [i] has
    [id = i]: identifiers are 0 to [n - 1], in order, and never move. *)
Theorem ids_are_indices (host : Host) (n k : nat) (s : Sim) :
  reachable host n k s -> map id (people s) = seq 0 n.
Proof. intros Hr. apply (reachable_log_invariant host n k s Hr). Qed.

Lemma ids_are_indices_witness :
  let s := fst (fst (updateSimulation plainHost chainConfig (fst chainStart)
                       (snd chainStart))) in
  reachable plainHost 3 1 s /\ map id (people s) = [0; 1; 2].
Proof.
  split; [exact chain_reachable|].
  exact (ids_are_indices plainHost 3 1 _ chain_reachable).
Defined.

(** X9. In every reachable state every logged event names two distinct
    agents of the population: [from] and [to] are below [n] and differ. *)
Theorem log_events_valid (host : Host) (n k : nat) (s : Sim) :
  reachable host n k s -> Forall (validEvent n) (infections s).
Proof. intros Hr. apply (reachable_log_invariant host n k s Hr). Qed.

Lemma log_events_valid_witness :
  let s := fst (fst (updateSimulation plainHost chainConfig (fst chainStart)
                       (snd chainStart))) in
  reachable plainHost 3 1 s /\ Forall (validEvent 3) (infections s).
Proof.
  split; [exact chain_reachable|].
  exact (log_events_valid plainHost 3 1 _ chain_reachable).
Defined.

(** X10. In every reachable state the secondary infections counted on the
    agents add up to the length of the event log. *)
Theorem spread_matches_log (host : Host) (n k : nat) (s : Sim) :
  reachable host n k s ->
  nat_sum infectionsSpread (people s) = List.length (infections s).
Proof. intros Hr. apply (reachable_log_invariant host n k s Hr). Qed.

Lemma spread_matches_log_witness :
  let s := fst (fst (updateSimulation plainHost chainConfig (fst chainStart)
                       (snd chainStart))) in
  reachable plainHost 3 1 s /\
  nat_sum infectionsSpread (people s) = List.length (infections s).
Proof.
  split; [exact chain_reachable|].
  exact (spread_matches_log plainHost 3 1 _ chain_reachable).
Defined.

(* ===================================================================== *)
(** ** Published statistics *)
(* ===================================================================== *)

Lemma updateSimulation_stats (host : Host) (cfg : Config) (s : Sim) (r : Rng)
    (st : Stats) :
  snd (fst (updateSimulation host cfg s r)) = Some st ->
  canvas cfg <> None /\
  st = statistics host cfg (people (fst (fst (updateSimulation host cfg s r)))).
Proof.
  unfold updateSimulation. destruct (canvas cfg) as [[w h]|]; [|discriminate].
  rewrite !bind_run. simpl. intros H. injection H as <-.
  split; [discriminate | reflexivity].
Qed.

(** X11. The four figures handed to [setStats] (healthy, infected plus
    quarantined, recovered, dead) add up to the population size after every
    tick of a run started by [initializeSimulation]; statistics are
    published only when the canvas is mounted. *)
Theorem published_stats_sum (host : Host) (n k : nat) (cfg : Config) (s : Sim)
    (r : Rng) (st : Stats) :
  reachable host n k s ->
  populationSize cfg = n -> initialInfected cfg = k ->
  snd (fst (updateSimulation host cfg s r)) = Some st ->
  canvas cfg <> None /\
  st_healthy st + st_infected st + st_recovered st + st_dead st = n.
Proof.
  intros Hr Hn Hk Hst.
  destruct (updateSimulation_stats host cfg s r st Hst) as [Hc ->].
  split; [exact Hc|].
  pose proof (reach_step host n k cfg s r Hr Hn Hk) as Hr'.
  apply reachable_invariant in Hr' as [Hwf Hlen].
  set (ps := people (fst (fst (updateSimulation host cfg s r)))) in *.
  assert (He : n_exposed (tally ps) = 0).
  { unfold tally. rewrite exposed_fold_bump; [reflexivity|].
    eapply Forall_impl; [|exact Hwf]. intros p Hp; apply Hp. }
  assert (Ha : n_asymptomatic (tally ps) = 0).
  { unfold tally. rewrite asymptomatic_fold_bump; [reflexivity|].
    eapply Forall_impl; [|exact Hwf]. intros p Hp; apply Hp. }
  assert (Ht : total (tally ps) = n).
  { unfold tally. rewrite total_fold_bump. simpl. exact Hlen. }
  unfold total in Ht. simpl. lia.
Qed.

Lemma published_stats_sum_witness :
  let st := statistics plainHost chainConfig
              (people (fst (fst (updateSimulation plainHost chainConfig
                                   (fst chainStart) (snd chainStart))))) in
  reachable plainHost 3 1 (fst chainStart) /\
  snd (fst (updateSimulation plainHost chainConfig (fst chainStart)
              (snd chainStart))) = Some st /\
  st_healthy st + st_infected st + st_recovered st + st_dead st = 3.
Proof.
  cbv zeta.
  assert (Hr : reachable plainHost 3 1 (fst chainStart))
    by (apply reach_init; reflexivity).
  assert (Hst : snd (fst (updateSimulation plainHost chainConfig (fst chainStart)
                            (snd chainStart)))
                = Some (statistics plainHost chainConfig
                          (people (fst (fst (updateSimulation plainHost chainConfig
                                               (fst chainStart) (snd chainStart)))))))
    by (vm_compute; reflexivity).
  split; [exact Hr|]. split; [exact Hst|].
  exact (proj2 (published_stats_sum plainHost 3 1 chainConfig (fst chainStart)
                  (snd chainStart) _ Hr eq_refl eq_refl Hst)).
Defined.

(* ===================================================================== *)
(** ** The initial state *)
(* ===================================================================== *)

Lemma newPerson_spec (cfg : Config) (w h : float) (i : nat) (r : Rng) :
  let out := newPerson cfg w h i r in
  status (fst out) = (if Nat.ltb i (initialInfected cfg) then infected else healthy) /\
  cursor (snd out) = cursor r + 8 /\ draws (snd out) = draws r.
Proof.
  cbv zeta. unfold newPerson, bind, ret, Math_random; simpl.
  repeat split. lia.
Qed.

Lemma initial_tally (cfg : Config) (w h : float) (m a : nat) (r : Rng)
    (c : Counts) :
  let k := initialInfected cfg in
  let out := mapM (newPerson cfg w h) (seq a m) r in
  let c' := fold_left bump (fst out) c in
  let sick := Nat.min k (a + m) - Nat.min k a in
  c' = mkCounts (n_healthy c + (m - sick)) (n_exposed c) (n_asymptomatic c)
         (n_infected c + sick) (n_quarantined c) (n_recovered c) (n_dead c) /\
  cursor (snd out) = cursor r + 8 * m /\ draws (snd out) = draws r.
Proof.
  cbv zeta. revert a r c. induction m as [|m IH]; intros a r c.
  - simpl. replace (a + 0) with a by lia. rewrite Nat.sub_diag, !Nat.add_0_r.
    destruct c; repeat split.
  - cbn [seq mapM]. rewrite !bind_run. cbn [ret fst snd fold_left].
    destruct (newPerson_spec cfg w h a r) as (Hs & Hc & Hd).
    destruct (IH (S a) (snd (newPerson cfg w h a r))
                (bump c (fst (newPerson cfg w h a r)))) as (Ht & Hc' & Hd').
    split; [|split; [lia | congruence]].
    rewrite Ht. unfold bump, isStatus. rewrite Hs.
    destruct (Nat.ltb_spec a (initialInfected cfg));
      cbn -[Nat.sub Nat.min Nat.add]; f_equal; lia.
Qed.

(** X12. [initializeSimulation] builds a state at clock 0 with an empty log
    in which [min(initialInfected, populationSize)] agents are infected and
    all others healthy, and it makes exactly eight draws per agent. *)
Theorem initial_state (cfg : Config) (r : Rng) :
  let n := populationSize cfg in
  let k := initialInfected cfg in
  let out := initializeSimulation cfg r in
  time (fst out) = 0%float /\ infections (fst out) = [] /\
  List.length (people (fst out)) = n /\
  tally (people (fst out)) = mkCounts (n - Nat.min k n) 0 0 (Nat.min k n) 0 0 0 /\
  cursor (snd out) = cursor r + 8 * n /\ draws (snd out) = draws r.
Proof.
  cbv zeta. unfold initializeSimulation. rewrite bind_run. simpl.
  match goal with
  | |- context [mapM (newPerson cfg ?w ?h)] =>
      destruct (initial_tally cfg w h (populationSize cfg) 0 r (mkCounts 0 0 0 0 0 0 0))
        as (Ht & Hc & Hd);
      pose proof (post_mapM (newPerson cfg w h) (fun _ => True) (fun _ => True)
                    (fun _ _ _ => I) (seq 0 (populationSize cfg))
                    (proj2 (Forall_forall _ _) (fun _ _ => I)) r) as [_ Hlen]
  end.
  repeat split; try assumption.
  - rewrite Hlen. apply length_seq.
  - unfold tally. rewrite Ht. simpl. f_equal; lia.
Qed.

(** X13. The chart point seeded by [initializeSimulation]
    ([Sehat = populationSize - initialInfected],
    [Terinfeksi = initialInfected]) agrees with the healthy and infected
    tallies of the state it has just built exactly when
    [initialInfected <= populationSize]; otherwise [Sehat] is negative. *)
Theorem seed_chart_point (cfg : Config) (r : Rng) :
  let c := tally (people (fst (initializeSimulation cfg r))) in
  let point := seedChartPoint cfg in
  (initialInfected cfg <= populationSize cfg <->
   Sehat point = Z.of_nat (n_healthy c)
   /\ Terinfeksi point = Z.of_nat (n_infected c)) /\
  (populationSize cfg < initialInfected cfg -> (Sehat point < 0)%Z).
Proof.
  cbv zeta. destruct (initial_state cfg r) as (_ & _ & _ & Ht & _).
  rewrite Ht. unfold seedChartPoint. simpl. lia.
Qed.

(* ===================================================================== *)
(** ** Rescaling through an intermediate recovery time *)
(* ===================================================================== *)

Section Detour.

Local Open Scope R_scope.

Lemma unitRoundoff_small : unitRoundoff <= / 16.
Proof.
  pose proof unitRoundoff_pos as Hu. unfold unitRoundoff in *.
  assert (E : powerRZ 2 (-53) * powerRZ 2 53 = 1).
  { rewrite <- powerRZ_add by lra. reflexivity. }
  assert (H : 16 <= powerRZ 2 53).
  { rewrite <- (IZR_pow2 53) by lia. apply IZR_le. lia. }
  assert (16 * powerRZ 2 (-53) <= powerRZ 2 (-53) * powerRZ 2 53) by nra.
  lra.
Qed.

Lemma between_scaled (u a b : R) :
  0 < u -> Rabs (a - b) <= u * a -> (1 - u) * a <= b <= (1 + u) * a.
Proof. intros Hu H. apply Rabs_le_between in H. lra. Qed.

(** Four roundings on the detour against two on the direct way. *)
Lemma detour_error (old b1 b2 v : float) :
  normal old -> normal b1 -> normal b2 -> normal v ->
  normal (v / old) ->
  normal (b1 * (v / old)) ->
  normal (b1 * (v / old) / b1) ->
  normal (b2 * (b1 * (v / old) / b1)) ->
  normal (b2 * (v / old)) ->
  Rabs (valueOf (b2 * (b1 * (v / old) / b1)) - valueOf (b2 * (v / old)))
  <= 8 * unitRoundoff * valueOf (b2 * (v / old)).
Proof.
  intros Ho H1 H2 Hv Hm Hp Hm' HA HB.
  pose proof (mul_error b1 (v / old) H1 Hm Hp) as E1.
  pose proof (div_error (b1 * (v / old)) b1 Hp H1 Hm') as E2.
  pose proof (mul_error b2 (b1 * (v / old) / b1) H2 Hm' HA) as E3.
  pose proof (mul_error b2 (v / old) H2 Hm HB) as E4.
  pose proof (normal_positive _ H1) as P1.
  pose proof (normal_positive _ H2) as P2.
  pose proof (normal_positive _ Hm) as Pm.
  pose proof (normal_positive _ Hp) as Pp.
  pose proof (normal_positive _ Hm') as Pm'.
  pose proof (normal_positive _ HA) as PA.
  pose proof (normal_positive _ HB) as PB.
  pose proof unitRoundoff_pos as Hu. pose proof unitRoundoff_small as Hs.
  set (u := unitRoundoff) in *.
  set (c1 := valueOf b1) in *. set (c2 := valueOf b2) in *.
  set (m := valueOf (v / old)) in *.
  set (p := valueOf (b1 * (v / old))) in *.
  set (m' := valueOf (b1 * (v / old) / b1)) in *.
  set (A := valueOf (b2 * (b1 * (v / old) / b1))) in *.
  set (B := valueOf (b2 * (v / old))) in *.
  apply between_scaled in E1; [| exact Hu].
  apply between_scaled in E3; [| exact Hu].
  apply between_scaled in E4; [| exact Hu].
  assert (E2' : (1 - u) * (c1 * m') <= p <= (1 + u) * (c1 * m')).
  { apply between_scaled in E2; [| exact Hu].
    assert (Ep : c1 * (p / c1) = p) by (field; lra).
    set (q := p / c1) in *.
    assert ((1 - u) * (c1 * m') = c1 * ((1 - u) * m')) by ring.
    assert ((1 + u) * (c1 * m') = c1 * ((1 + u) * m')) by ring.
    assert (c1 * ((1 - u) * m') <= c1 * q)
      by (apply Rmult_le_compat_l; lra).
    assert (c1 * q <= c1 * ((1 + u) * m'))
      by (apply Rmult_le_compat_l; lra).
    lra. }
  (* m against m' *)
  assert (Hlo : (1 - u) * (1 - u) * m' <= m).
  { assert ((1 - u) * ((1 - u) * (c1 * m')) <= c1 * m) by nra.
    apply (Rmult_le_reg_l c1); [exact P1 | nra]. }
  assert (Hhi : m <= (1 + u) * (1 + u) * m').
  { assert (c1 * m <= (1 + u) * ((1 + u) * (c1 * m'))) by nra.
    apply (Rmult_le_reg_l c1); [exact P1 | nra]. }
  assert (Xlo : (1 - u) * (1 - u) * (c2 * m') <= c2 * m) by nra.
  assert (Xhi : c2 * m <= (1 + u) * (1 + u) * (c2 * m')) by nra.
  set (X := c2 * m') in *. set (Y := c2 * m) in *.
  assert (Up : (1 - u) * (1 - u) * (1 - u) * A <= (1 + u) * B) by nra.
  assert (Lo : (1 - u) * B <= (1 + u) * (1 + u) * (1 + u) * A) by nra.
  assert (K1 : 1 + u <= (1 + 8 * u) * ((1 - u) * (1 - u) * (1 - u))) by nra.
  assert (K2 : (1 - 8 * u) * ((1 + u) * (1 + u) * (1 + u)) <= 1 - u) by nra.
  apply Rabs_le. split.
  - assert ((1 - 8 * u) * ((1 + u) * (1 + u) * (1 + u)) * B
            <= (1 + u) * (1 + u) * (1 + u) * A) by nra.
    assert (0 < (1 + u) * (1 + u) * (1 + u)) by nra.
    assert ((1 - 8 * u) * B <= A).
    { apply (Rmult_le_reg_l ((1 + u) * (1 + u) * (1 + u))); [assumption | nra]. }
    lra.
  - assert ((1 - u) * (1 - u) * (1 - u) * A
            <= (1 + 8 * u) * ((1 - u) * (1 - u) * (1 - u)) * B) by nra.
    assert (0 < (1 - u) * (1 - u) * (1 - u)) by nra.
    assert (A <= (1 + 8 * u) * B).
    { apply (Rmult_le_reg_l ((1 - u) * (1 - u) * (1 - u))); [assumption | nra]. }
    lra.
Qed.

Lemma moderate_detour (old b1 b2 v : float) :
  moderate old = true -> moderate b1 = true -> moderate b2 = true ->
  moderate v = true ->
  normal (v / old) /\ normal (b1 * (v / old)) /\
  normal (b1 * (v / old) / b1) /\
  normal (b2 * (b1 * (v / old) / b1)) /\ normal (b2 * (v / old)).
Proof.
  intros Ho H1 H2 Hv.
  destruct (moderate_inv old Ho) as (mo & eo & Eo & Do & Ro).
  destruct (moderate_inv b1 H1) as (m1 & e1 & E1 & D1 & R1).
  destruct (moderate_inv b2 H2) as (m2 & e2 & E2 & D2 & R2).
  destruct (moderate_inv v Hv) as (mv & ev & Ev & Dv & Rv).
  destruct (div_in_range v old _ _ _ _ Ev Dv Eo Do ltac:(lia))
    as (mq & eq & Eq & Dq & Rq).
  destruct (mul_in_range b1 (v / old) _ _ _ _ E1 D1 Eq Dq ltac:(lia))
    as (mp & ep & Ep & Dp & Rp).
  destruct (div_in_range (b1 * (v / old)) b1 _ _ _ _ Ep Dp E1 D1 ltac:(lia))
    as (mq' & eq' & Eq' & Dq' & Rq').
  destruct (mul_in_range b2 (b1 * (v / old) / b1) _ _ _ _ E2 D2 Eq' Dq'
              ltac:(lia)) as (mA & eA & EA & DA & _).
  destruct (mul_in_range b2 (v / old) _ _ _ _ E2 D2 Eq Dq ltac:(lia))
    as (mB & eB & EB & DB & _).
  split; [exact (normal_intro _ _ _ Eq Dq) |].
  split; [exact (normal_intro _ _ _ Ep Dp) |].
  split; [exact (normal_intro _ _ _ Eq' Dq') |].
  split; [exact (normal_intro _ _ _ EA DA) | exact (normal_intro _ _ _ EB DB)].
Qed.

End Detour.

(** X14. In the binary64 arithmetic the code runs, moving the recovery time
    from a stored base to [b1] and then to [b2] gives a [personalRecovery]
    within [8 * 2^-53] (that is [2^-50]) of the one a direct move to [b2]
    gives, relative to the latter, whenever the intermediate results are
    normal numbers, as they are when the bases and the value lie between
    2^-128 and 2^128: a detour of the control drifts by rounding only. *)
Theorem rescale_detour_within_rounding (b1 b2 recovery oldBase : float) :
  let first := rescale binary64 b1 recovery oldBase in
  let detour := rescale binary64 b2 first b1 in
  let direct := rescale binary64 b2 recovery oldBase in
  let within_rounding :=
    (Rabs (valueOf detour - valueOf direct)
     <= 8 * unitRoundoff * valueOf direct)%R in
  normal oldBase -> normal b1 -> normal b2 -> normal recovery ->
  detour = (b2 * (b1 * (recovery / oldBase) / b1))%float /\
  direct = (b2 * (recovery / oldBase))%float /\
  (normal (recovery / oldBase) -> normal first -> normal (first / b1) ->
   normal detour -> normal direct -> within_rounding) /\
  (moderate oldBase = true -> moderate b1 = true -> moderate b2 = true ->
   moderate recovery = true -> within_rounding).
Proof.
  cbv zeta. intros Ho H1 H2 Hv.
  rewrite !(rescale_normal_base _ _ oldBase Ho), (rescale_normal_base _ _ b1 H1).
  split; [reflexivity |]. split; [reflexivity |]. split.
  - intros Hm Hp Hm' HA HB. apply detour_error; assumption.
  - intros Mo M1 M2 Mv.
    destruct (moderate_detour _ _ _ _ Mo M1 M2 Mv) as (Hm & Hp & Hm' & HA & HB).
    apply detour_error; assumption.
Qed.

Lemma rescale_detour_within_rounding_witness :
  let first :=
    rescale binary64 6000%float 3874.9999999999995%float 5000%float in
  let detour := rescale binary64 5000%float first 6000%float in
  let direct :=
    rescale binary64 5000%float 3874.9999999999995%float 5000%float in
  detour = 3874.9999999999991%float /\
  direct = 3874.9999999999995%float /\
  normal 5000 /\ normal 6000 /\ normal 3874.9999999999995 /\
  (Rabs (valueOf detour - valueOf direct)
   <= 8 * unitRoundoff * valueOf direct)%R.
Proof.
  cbv zeta.
  assert (Ho : normal 5000) by reflexivity.
  assert (H1 : normal 6000) by reflexivity.
  assert (Hv : normal 3874.9999999999995) by reflexivity.
  split; [vm_compute; reflexivity |]. split; [vm_compute; reflexivity |].
  split; [exact Ho |]. split; [exact H1 |]. split; [exact Hv |].
  destruct (rescale_detour_within_rounding 6000 5000 3874.9999999999995 5000
              Ho H1 Ho Hv) as (_ & _ & _ & Hb).
  apply Hb; reflexivity.
Defined.

(* ===================================================================== *)
(** ** An infection rate of zero *)
(* ===================================================================== *)

Lemma hoare_foldM {A S : Type} (G : Rng -> Prop) (f : A -> S -> Eff S)
    (I : S -> Prop) :
  (forall a s, I s -> hoare G (f a s) I) ->
  forall xs s, I s -> hoare G (foldM f xs s) I.
Proof.
  intros Hf xs. induction xs as [|a rest IH]; intros s Hs r Hr; simpl.
  - split; assumption.
  - rewrite bind_run. destruct (Hf a s Hs r Hr) as [Hs' Hr'].
    apply IH; assumption.
Qed.

Lemma mapM_draws {A B : Type} (f : A -> Eff B) :
  (forall a r, draws (snd (f a r)) = draws r) ->
  forall xs r, draws (snd (mapM f xs r)) = draws r.
Proof.
  intros Hf xs. induction xs as [|a rest IH]; intros r; simpl; [reflexivity|].
  rewrite !bind_run. simpl. now rewrite IH, Hf.
Qed.

Lemma randomWalk_draws (cfg : Config) (b : bool) (p : Person) (r : Rng) :
  draws (snd (randomWalk cfg b p r)) = draws r.
Proof.
  unfold randomWalk, bind, ret, Math_random. repeat (break_if; simpl); reflexivity.
Qed.

Lemma incubate_draws (now : float) (p : Person) (r : Rng) :
  draws (snd (incubate now p r)) = draws r.
Proof.
  unfold incubate, bind, ret, Math_random. repeat (break_if; simpl); reflexivity.
Qed.

Lemma resolve_draws (cfg : Config) (now : float) (p : Person) (r : Rng) :
  draws (snd (resolve cfg now p r)) = draws r.
Proof.
  unfold resolve, determineOutcome, bind, ret, Math_random.
  repeat (break_if; simpl); reflexivity.
Qed.

Lemma stepPerson_draws (cfg : Config) (w h now : float) (p : Person) (r : Rng) :
  draws (snd (stepPerson cfg w h now p r)) = draws r.
Proof.
  unfold stepPerson. break_if; [reflexivity|].
  rewrite bind_run. cbv zeta. rewrite bind_run.
  now rewrite resolve_draws, incubate_draws, randomWalk_draws.
Qed.

Lemma attemptInfection_draws (cfg : Config) (now : float) (p1 p2 : Person)
    (log : list Infection) (r : Rng) :
  draws (snd (attemptInfection cfg now p1 p2 log r)) = draws r.
Proof.
  unfold attemptInfection, bind, ret, Math_random.
  repeat (break_if; simpl); reflexivity.
Qed.

(** With an infection rate of 0 a draw that is not negative never succeeds. *)
Lemma attemptInfection_zero (cfg : Config) (now : float) (p1 p2 : Person)
    (log : list Infection) (r : Rng) :
  infectionRate cfg = 0%float ->
  (draws r (cursor r) <? 0)%float = false ->
  fst (attemptInfection cfg now p1 p2 log r) = (p1, p2, log, false).
Proof.
  intros Hrate Hu. unfold attemptInfection, bind, ret, Math_random. rewrite Hrate.
  destruct (isStatus p1 quarantined || isStatus p2 quarantined); [reflexivity|].
  destruct ((isStatus p1 infected || isStatus p1 asymptomatic)
            && isStatus p2 healthy); [|reflexivity].
  destruct (maskEnabled cfg), (isStatus p1 asymptomatic); simpl.
  - change (0 * 0.5 * 0.5)%float with 0%float. now rewrite Hu.
  - change (0 * 0.5 * 1)%float with 0%float. now rewrite Hu.
  - change (0 * 1 * 0.5)%float with 0%float. now rewrite Hu.
  - change (0 * 1 * 1)%float with 0%float. now rewrite Hu.
Qed.

Lemma scanPair_zero (host : Host) (cfg : Config) (ij : nat * nat)
    (ps0 : list Person) (log0 : list Infection) (s : Sim) :
  infectionRate cfg = 0%float ->
  infections s = log0 /\ Forall2 (fun p q => status q = status p) ps0 (people s) ->
  hoare nonnegative (scanPair host cfg ij s)
    (fun s' => infections s' = log0
               /\ Forall2 (fun p q => status q = status p) ps0 (people s')).
Proof.
  intros Hrate [Hlog Hst] r Hr. unfold scanPair.
  destruct (nth_error (people s) (fst ij)) as [p1|] eqn:E1;
    [|repeat split; assumption].
  destruct (nth_error (people s) (snd ij)) as [p2|] eqn:E2;
    [|repeat split; assumption].
  break_if; [|repeat split; assumption].
  rewrite bind_run.
  match goal with
  | |- context [attemptInfection cfg (time s) ?a ?b ?l r] =>
      set (m1 := a); set (m2 := b);
      pose proof (attemptInfection_zero cfg (time s) m1 m2 l r Hrate (Hr (cursor r)))
        as Hfirst;
      pose proof (attemptInfection_draws cfg (time s) m1 m2 l r) as Hd1;
      destruct (attemptInfection cfg (time s) m1 m2 l r) as [out1 r1]
  end.
  simpl in Hfirst, Hd1. subst out1. cbn [fst snd].
  assert (Hr1 : nonnegative r1) by (intros n; rewrite Hd1; apply Hr).
  rewrite bind_run.
  pose proof (attemptInfection_zero cfg (time s) m2 m1 (infections s) r1 Hrate
                (Hr1 (cursor r1))) as Hsecond.
  pose proof (attemptInfection_draws cfg (time s) m2 m1 (infections s) r1) as Hd2.
  destruct (attemptInfection cfg (time s) m2 m1 (infections s) r1) as [out2 r2].
  simpl in Hsecond, Hd2. subst out2. cbn [fst snd ret people infections].
  split; [split; [exact Hlog|]|].
  - apply Forall2_update; [apply Forall2_update; [exact Hst|]|].
    + intros a Ha. pose proof (Forall2_nth _ _ _ _ _ _ Hst Ha E1) as Hc. exact Hc.
    + intros a Ha. pose proof (Forall2_nth _ _ _ _ _ _ Hst Ha E2) as Hc. exact Hc.
  - intros n. rewrite Hd2. apply Hr1.
Qed.

Lemma nonnegative_chainDraws : nonnegative (snd chainStart).
Proof.
  intros n. change (draws (snd chainStart) n) with (chainDraws n).
  unfold chainDraws, drawsOf.
  do 29 (destruct n as [|n]; [reflexivity|]). destruct n; reflexivity.
Defined.

(** X15. With an infection rate of 0, and draws that are never negative (as
    those of [Math.random] are), a call of [updateSimulation] logs no event
    and leaves every healthy agent healthy, whatever the contacts. *)
Theorem zero_rate_no_infection (host : Host) (cfg : Config) (s : Sim) (r : Rng) :
  infectionRate cfg = 0%float -> nonnegative r ->
  let s' := fst (fst (updateSimulation host cfg s r)) in
  infections s' = infections s /\
  Forall2 (fun p q => status p = healthy -> status q = healthy)
    (people s) (people s').
Proof.
  intros Hrate Hr. cbv zeta. destruct (canvas cfg) as [[w h]|] eqn:Hc.
  - rewrite (updateSimulation_phases host cfg s r w h Hc).
    destruct (agePhase_aged cfg w h s r) as (Ha & _ & Hl).
    assert (Hr1 : nonnegative (snd (agePhase cfg w h s r))).
    { intros n. unfold agePhase. rewrite bind_run. simpl.
      rewrite mapM_draws; [apply Hr|]. intros a r0. apply stepPerson_draws. }
    set (s1 := fst (agePhase cfg w h s r)) in *.
    destruct (hoare_foldM nonnegative (scanPair host cfg)
                (fun s' => infections s' = infections s1
                           /\ Forall2 (fun p q => status q = status p)
                                (people s1) (people s'))
                (fun ij s0 H0 => scanPair_zero host cfg ij (people s1)
                                   (infections s1) s0 Hrate H0)
                (pairs (List.length (people s1))) s1
                (conj eq_refl (Forall2_same _ _ (fun _ => eq_refl)))
                (snd (agePhase cfg w h s r)) Hr1) as [[Hlog Hst] _].
    unfold contactScan. split; [congruence|].
    eapply Forall2_compose; [|exact Ha | exact Hst].
    intros p q t (_ & Hages & _) Heq Hp. simpl in Heq. rewrite Heq.
    rewrite Hp in Hages. destruct (status q); simpl in Hages; congruence.
  - rewrite (updateSimulation_unmounted host cfg s r Hc). simpl.
    split; [reflexivity|]. apply Forall2_same. auto.
Qed.

Lemma zero_rate_no_infection_witness :
  let cfg := with_infectionRate 0 chainConfig in
  let s' := fst (fst (updateSimulation plainHost cfg (fst chainStart)
                        (snd chainStart))) in
  infectionRate cfg = 0%float /\ nonnegative (snd chainStart) /\
  infections s' = [].
Proof.
  cbv zeta. split; [reflexivity|]. split; [exact nonnegative_chainDraws|].
  exact (proj1 (zero_rate_no_infection plainHost (with_infectionRate 0 chainConfig)
                  (fst chainStart) (snd chainStart) eq_refl nonnegative_chainDraws)).
Defined.

(* ===================================================================== *)
(** ** Index cases *)
(* ===================================================================== *)

Lemma mayBecome_from_sick (a b : Status) :
  mayBecome a b = true -> a <> healthy -> b <> healthy.
Proof.
  destruct a, b; cbv; intros H Ha; try discriminate H;
    try (intros E; discriminate E); exfalso; apply Ha; reflexivity.
Qed.

(** X16. In every reachable state the index cases (the agents with
    [id < initialInfected]) are not healthy and have no recorded infector:
    they start infected, nobody becomes healthy again, and [infectedBy] is
    written only on a healthy agent. *)
Theorem index_cases_have_no_infector (host : Host) (n k : nat) (s : Sim) :
  reachable host n k s ->
  Forall (fun p => id p < k -> status p <> healthy /\ infectedBy p = None)
         (people s).
Proof.
  induction 1 as [cfg r Hn Hk | cfg s Hr IH Hn Hk | cfg s r Hr IH Hn Hk].
  - unfold initializeSimulation. rewrite bind_run. simpl.
    match goal with
    | |- Forall _ (fst (mapM ?f ?xs r)) =>
        destruct (post_mapM f (fun _ => True)
                    (fun p => id p < k -> status p <> healthy /\ infectedBy p = None)
                    (fun i _ r0 =>
                       ltac:(unfold newPerson, bind, ret, Math_random; simpl;
                             intros Hlt; rewrite Hk;
                             apply Nat.ltb_lt in Hlt; rewrite Hlt;
                             split; [discriminate | reflexivity]))
                    xs (proj2 (Forall_forall _ _) (fun _ _ => I)) r) as [Hall _]
    end.
    exact Hall.
  - unfold updateSimulationParameters. break_if; [exact IH|]. simpl.
    rewrite Forall_map. eapply Forall_impl; [|exact IH].
    intros p Hp. exact Hp.
  - pose proof (tick_evolves host cfg s r) as He.
    revert IH He. generalize (people (fst (fst (updateSimulation host cfg s r)))).
    generalize (people s). intros ps qs IH He.
    induction He as [|p q ps qs Hpq Hrest IHe]; [constructor|].
    inversion IH as [|p' ps' Hp Hps]; subst.
    constructor; [|apply IHe; exact Hps].
    destruct Hpq as ((Hid & _) & Hm & _ & Hby). intros Hlt. rewrite Hid in Hlt.
    destruct (Hp Hlt) as [Hsick Hnone].
    split; [eapply mayBecome_from_sick; eassumption|].
    rewrite (Hby Hsick). exact Hnone.
Qed.

Lemma index_cases_have_no_infector_witness :
  let s := fst (fst (updateSimulation plainHost chainConfig (fst chainStart)
                       (snd chainStart))) in
  reachable plainHost 3 1 s /\
  Forall (fun p => id p < 1 -> status p <> healthy /\ infectedBy p = None)
         (people s).
Proof.
  split; [exact chain_reachable|].
  exact (index_cases_have_no_infector plainHost 3 1 _ chain_reachable).
Defined.
